(** * n3store-sync: an RDF quad store kept in sync with a search index

    A shallow embedding of [sync-store.ts] (the event-dispatching wrapper
    around the n3 [Store]) and of [orama-store.ts] (the coordinator that
    mirrors every quad into an Orama search index), followed by the
    properties the specification states about them. *)

From Stdlib Require Import ZArith String Ascii List Lia QArith.
From stdpp Require Import base decidable option list strings gmap.

Local Open Scope string_scope.
Local Open Scope list_scope.

(** ** RDF terms and quads

    [quad.subject], [quad.predicate], [quad.object] and [quad.graph] are
    RDF/JS terms: a tagged union on [termType], every member carrying a
    [value].  Only literals have [language] and [datatype]; the code
    guards both with [??] and [?.], so either may be missing. *)

Inductive Term : Type :=
| NamedNode (value : string)
| BlankNode (value : string)
| Literal (value : string) (language : option string) (datatype : option string)
| VariableTerm (value : string)
| DefaultGraph.

Definition termType (t : Term) : string :=
  match t with
  | NamedNode _ => "NamedNode"
  | BlankNode _ => "BlankNode"
  | Literal _ _ _ => "Literal"
  | VariableTerm _ => "Variable"
  | DefaultGraph => "DefaultGraph"
  end.

Definition value (t : Term) : string :=
  match t with
  | NamedNode v | BlankNode v | Literal v _ _ | VariableTerm v => v
  | DefaultGraph => ""
  end.

Record Quad : Type := mkQuad
  { subject : Term; predicate : Term; object : Term; graph : Term }.

Global Instance Term_eq_dec : EqDecision Term.
Proof. solve_decision. Defined.

Global Instance Quad_eq_dec : EqDecision Quad.
Proof. solve_decision. Defined.

(** ** Key derivation: [generateQuadId] *)

(** Property reads [t.language] and [t.datatype?.value]; [None] stands for
    a missing ([undefined] or [null]) result. *)
Definition language (t : Term) : option string :=
  match t with
  | Literal _ language _ => language
  | _ => None
  end.

Definition datatype_value (t : Term) : option string :=
  match t with
  | Literal _ _ datatype => datatype
  | _ => None
  end.

Definition generateQuadId (quad : Quad) : string :=
  let 'mkQuad s p o g := quad in
  let subject := value s in
  let predicate := value p in
  let object := value o in
  let graph := value g in
  let objectType := termType o in
  let objectLanguage :=
    if decide (termType o = "Literal") then default "" (language o) else "" in
  let objectDatatype :=
    if decide (termType o = "Literal") then default "" (datatype_value o) else "" in
  subject +:+ "|" +:+ predicate +:+ "|" +:+ object +:+ "|" +:+ graph +:+ "|"
    +:+ objectType +:+ "|" +:+ objectLanguage +:+ "|" +:+ objectDatatype.

(** The language tag and datatype identifier of a fact's object, with the
    empty string when there is none. *)
Definition objectLanguageOf (o : Term) : string :=
  if decide (termType o = "Literal") then default "" (language o) else "".

Definition objectDatatypeOf (o : Term) : string :=
  if decide (termType o = "Literal") then default "" (datatype_value o) else "".

(** The seven logical components of a fact that the key is made of
    (section 3 of the specification), in the order of section 4.2. *)
Definition keyComponents (quad : Quad) : list string :=
  [ value quad.(subject); value quad.(predicate); value quad.(object);
    value quad.(graph); termType quad.(object);
    objectLanguageOf quad.(object); objectDatatypeOf quad.(object) ].

(** The key as section 4.2 words it: the components joined, in that order,
    by the delimiter. *)
Definition deriveKey_spec (quad : Quad) : string :=
  String.concat "|" (keyComponents quad).

(** Does the text contain the delimiter? *)
Fixpoint contains_delimiter (s : string) : bool :=
  match s with
  | EmptyString => false
  | String c s' => (c =? "|")%char || contains_delimiter s'
  end.

(** The components around the object value are free of the delimiter; the
    object value itself is unconstrained. *)
Definition delimiter_free (quad : Quad) : bool :=
  negb (contains_delimiter (value quad.(subject)))
  && negb (contains_delimiter (value quad.(predicate)))
  && negb (contains_delimiter (value quad.(graph)))
  && negb (contains_delimiter (objectLanguageOf quad.(object)))
  && negb (contains_delimiter (objectDatatypeOf quad.(object))).

(** Two facts whose raw text contains the delimiter. *)
Definition xsd_string : string := "http://www.w3.org/2001/XMLSchema#string".

Definition quad_bar_in_object : Quad :=
  mkQuad (NamedNode "x") (NamedNode "y")
         (Literal "z|w" (Some "") (Some xsd_string)) DefaultGraph.

Definition quad_bar_in_subject : Quad :=
  mkQuad (NamedNode "x|y") (NamedNode "z")
         (Literal "w" (Some "") (Some xsd_string)) DefaultGraph.

(** ** The mock embedding: [generateMockEmbedding]

    The vector entries are IEEE doubles computed by [Math.sin] and a
    multiplication; they are kept as the expression the code evaluates.
    The hash itself is 32-bit integer arithmetic and is computed. *)

Inductive number : Type :=
| Int (z : Z)                 (* an integer-valued double, exactly *)
| Lit_0_5                     (* the literal 0.5 *)
| Math_sin (x : number)
| Mul (x y : number).

(** [ToInt32] of ECMAScript: wrap into [-2^31, 2^31). *)
Definition ToInt32 (z : Z) : Z := ((z + 2 ^ 31) mod 2 ^ 32 - 2 ^ 31)%Z.

(** [b.charCodeAt(0)] for a one-character string [b]; the characters of a
    [string] are the code units below 256. *)
Definition charCodeAt0 (b : ascii) : Z := Z.of_nat (nat_of_ascii b).

(** The reducer [(a, b) => { a = ((a << 5) - a) + b.charCodeAt(0); return a & a; }] *)
Definition hashStep (a : Z) (b : ascii) : Z :=
  let a := (ToInt32 (Z.shiftl (ToInt32 a) 5) - a + charCodeAt0 b)%Z in
  Z.land (ToInt32 a) (ToInt32 a).

(** [text.split("").reduce(..., 0)] *)
Definition hashOf (text : string) : Z :=
  fold_left hashStep (list_ascii_of_string text) 0%Z.

Definition EMBEDDING_DIMENSION : nat := 384.

Definition generateMockEmbedding (text : string) : list number :=
  let hash := hashOf text in
  (* new Array(384).fill(0) *)
  let embedding := replicate EMBEDDING_DIMENSION (Int 0) in
  (* for (let i = 0; i < 384; i++) embedding[i] = Math.sin(hash + i) * 0.5 *)
  fold_left
    (fun embedding i =>
       <[ i := Mul (Math_sin (Int (hash + Z.of_nat i))) Lit_0_5 ]> embedding)
    (seq 0 EMBEDDING_DIMENSION) embedding.

(** ** Document projection: [quadToOramaDoc] *)

Record OramaDoc : Type := mkDoc
  { doc_id : string;
    doc_subject : string;
    doc_predicate : string;
    doc_object : string;
    doc_graph : string;
    doc_objectType : string;
    doc_objectValue : string;
    doc_objectLanguage : string;
    doc_objectDatatype : string;
    doc_subjectEmbedding : list number;
    doc_predicateEmbedding : list number;
    doc_objectEmbedding : list number;
    doc_combinedEmbedding : list number }.

(** A computation together with the texts it handed to the embedding
    function, in call order. *)
Definition Traced (A : Type) : Type := (A * list string)%type.

Definition traced_ret {A} (a : A) : Traced A := (a, []).

Definition traced_bind {A B} (c : Traced A) (k : A -> Traced B) : Traced B :=
  let '(a, calls) := c in
  let '(b, calls') := k a in
  (b, calls ++ calls').

(** One call of the embedding function. *)
Definition embed (text : string) : Traced (list number) :=
  (generateMockEmbedding text, [text]).

Definition quadToOramaDoc_traced (quad : Quad) (id : string) : Traced OramaDoc :=
  let objectType := termType quad.(object) in
  let objectValue := value quad.(object) in
  let objectLanguage := "" in
  let objectDatatype := "" in
  let '(objectLanguage, objectDatatype) :=
    if decide (objectType = "Literal")
    then (default "" (language quad.(object)),
          default "" (datatype_value quad.(object)))
    else (objectLanguage, objectDatatype) in
  traced_bind (embed (value quad.(subject))) (fun subjectEmbedding =>
  traced_bind (embed (value quad.(predicate))) (fun predicateEmbedding =>
  traced_bind (embed objectValue) (fun objectEmbedding =>
  let quadText :=
    value quad.(subject) +:+ " " +:+ value quad.(predicate) +:+ " " +:+ objectValue in
  traced_bind (embed quadText) (fun combinedEmbedding =>
  traced_ret
    {| doc_id := id;
       doc_subject := value quad.(subject);
       doc_predicate := value quad.(predicate);
       doc_object := objectValue;
       doc_graph := value quad.(graph);
       doc_objectType := objectType;
       doc_objectValue := objectValue;
       doc_objectLanguage := objectLanguage;
       doc_objectDatatype := objectDatatype;
       doc_subjectEmbedding := subjectEmbedding;
       doc_predicateEmbedding := predicateEmbedding;
       doc_objectEmbedding := objectEmbedding;
       doc_combinedEmbedding := combinedEmbedding |})))).

Definition quadToOramaDoc (quad : Quad) (id : string) : OramaDoc :=
  fst (quadToOramaDoc_traced quad id).

(** ** Exceptions and events *)

Inductive Exception : Type :=
| Error (message : string)          (* [new Error(message)] *)
| ValidationError.                  (* the index rejecting a query parameter *)

Inductive SyncStoreEvent : Type :=
| ADD_QUAD | REMOVE_QUAD | ADD_QUADS | REMOVE_QUADS | REMOVE_MATCHES | DELETE_GRAPH.

Global Instance SyncStoreEvent_eq_dec : EqDecision SyncStoreEvent.
Proof. solve_decision. Defined.

(** The [detail] of a [CustomEvent] is either the argument list of the
    intercepted call or the array of quads snapshotted before a removal. *)
Inductive Detail : Type :=
| ArgsQuad (quad : Quad)            (* [args] of addQuad / removeQuad: [[quad]] *)
| ArgsQuads (quads : list Quad)     (* [args] of addQuads / removeQuads: [[quads]] *)
| ArgsStream (stream : list Quad)   (* [args] of remove: [[stream]] *)
| QuadArray (quads : list Quad).    (* [quadsToRemove] *)

Record CustomEvent : Type := mkEvent
  { type : SyncStoreEvent; detail : Detail }.

(** The events of the two elementary mutations. *)
Definition addQuadEvent (quad : Quad) : CustomEvent :=
  mkEvent ADD_QUAD (ArgsQuad quad).

Definition removeQuadEvent (quad : Quad) : CustomEvent :=
  mkEvent REMOVE_QUAD (ArgsQuad quad).

(** [event.detail[0] as Quad] *)
Definition detail0 (d : Detail) : option Quad :=
  match d with
  | ArgsQuad quad => Some quad
  | QuadArray (quad :: _) => Some quad
  | _ => None
  end.

(** ** The store object and its method monad

    A [SyncStore] object owns the quads of its base n3 [Store] and the
    listeners of its private [EventTarget].  Listeners act on a state [W]
    of their own (for [OramaStore]: the search index).  [dispatched]
    records every event handed to [dispatchEvent], in order. *)

Record State (W : Type) : Type := mkState
  { quads : list Quad;
    target : list (SyncStoreEvent * (CustomEvent -> W -> W));
    dispatched : list CustomEvent;
    world : W }.

Arguments mkState {W} _ _ _ _.
Arguments quads {W} _.
Arguments target {W} _.
Arguments dispatched {W} _.
Arguments world {W} _.

Inductive Outcome (A : Type) : Type :=
| Returned (a : A)
| Threw (e : Exception).

Arguments Returned {A} _.
Arguments Threw {A} _.

(** A method body: it runs on the object's state and either returns or
    throws; what it changed before throwing stays changed. *)
Definition M (W A : Type) : Type := State W -> Outcome A * State W.

Definition ret {W A} (a : A) : M W A := fun st => (Returned a, st).

Definition throw {W A} (e : Exception) : M W A := fun st => (Threw e, st).

Definition bind {W A B} (c : M W A) (k : A -> M W B) : M W B :=
  fun st =>
    match c st with
    | (Returned a, st') => k a st'
    | (Threw e, st') => (Threw e, st')
    end.

Notation "x <- c ;; k" := (bind c (fun x => k))
  (at level 100, c at next level, right associativity).
Notation "c ;;; k" := (bind c (fun _ => k))
  (at level 100, right associativity).

(** [for (const x of xs) body(x)] *)
Fixpoint for_of {W A} (xs : list A) (body : A -> M W unit) : M W unit :=
  match xs with
  | [] => ret tt
  | x :: xs' => body x ;;; for_of xs' body
  end.

Definition set_quads {W} (qs : list Quad) (st : State W) : State W :=
  mkState qs (target st) (dispatched st) (world st).

(** [EventTarget.addEventListener] and [EventTarget.dispatchEvent]: the
    listeners registered for the event's type run synchronously, in
    registration order, before [dispatchEvent] returns. *)
Definition addEventListener {W} (event : SyncStoreEvent)
    (listener : CustomEvent -> W -> W) : M W unit :=
  fun st =>
    (Returned tt,
     mkState (quads st) (target st ++ [(event, listener)]) (dispatched st) (world st)).

Definition run_listeners {W} (ev : CustomEvent)
    (ls : list (SyncStoreEvent * (CustomEvent -> W -> W))) (w : W) : W :=
  fold_left (fun w l => if decide (fst l = type ev) then snd l ev w else w) ls w.

Definition dispatchEvent {W} (ev : CustomEvent) : M W unit :=
  fun st =>
    (Returned tt,
     mkState (quads st) (target st) (dispatched st ++ [ev])
             (run_listeners ev (target st) (world st))).

(** ** The base class: n3 [Store] *)

(** A stream of quads, as [remove] consumes it and [removeMatches] returns it. *)
Definition EventEmitter : Type := list Quad.

(** A [null] (wildcard) or a term to match in one position of a pattern. *)
Definition OTerm : Type := option Term.

Definition matches_term (pattern : OTerm) (t : Term) : bool :=
  match pattern with
  | None => true
  | Some t' => bool_decide (t' = t)
  end.

Definition matches (s p o g : OTerm) (quad : Quad) : bool :=
  matches_term s quad.(subject) && matches_term p quad.(predicate)
  && matches_term o quad.(object) && matches_term g quad.(graph).

Module Store.

(** Modelled from the spec: the FactStore, which is the [Store] class of
    the n3 package and not part of the sources.  Section 3: facts are set
    members, identical facts are not duplicated.  Section 6:
    [queryPattern(subject?, predicate?, object?, graph?) -> facts]. *)
Definition getQuads {W} (s p o g : OTerm) : M W (list Quad) :=
  fun st => (Returned (filter (fun q => matches s p o g q = true) (quads st)), st).

(** Modelled from the spec: [addOne(fact)] of the FactStore (section 6) on
    a set of facts (section 3); the result tells whether the quad was new. *)
Definition addQuad {W} (quad : Quad) : M W bool :=
  fun st =>
    if decide (quad ∈ quads st) then (Returned false, st)
    else (Returned true, set_quads (quads st ++ [quad]) st).

(** Modelled from the spec: [removeOne(fact)] of the FactStore (section 6);
    the result tells whether the quad was there. *)
Definition removeQuad {W} (quad : Quad) : M W bool :=
  fun st =>
    if decide (quad ∈ quads st)
    then (Returned true, set_quads (filter (fun q => q <> quad) (quads st)) st)
    else (Returned false, st).

(** Modelled from the spec: the number of facts the FactStore holds. *)
Definition size {W} (st : State W) : nat := length (quads st).

(** The bulk methods reach the elementary ones through [this], so a
    subclass override runs; the call chains are those the header of
    sync-store.ts records:
    addQuads(quads) -> addQuad(quad) for each quad,
    removeQuads(quads) -> removeQuad(quad) for each quad,
    removeMatches(s,p,o,g) -> remove(stream) -> removeQuad(quad) for each
    matching quad, deleteGraph(graph) -> removeMatches(null,null,null,graph). *)

(** Modelled from the spec: [addMany(facts)] (section 6). *)
Definition addQuads {W} (this_addQuad : Quad -> M W bool)
    (quads : list Quad) : M W unit :=
  for_of quads (fun quad => this_addQuad quad ;;; ret tt).

(** Modelled from the spec: [removeMany(facts)] (section 6). *)
Definition removeQuads {W} (this_removeQuad : Quad -> M W bool)
    (quads : list Quad) : M W unit :=
  for_of quads (fun quad => this_removeQuad quad ;;; ret tt).

(** Modelled from the spec: [remove(stream)] hands every quad the stream
    delivers to [removeQuad].  Section 6 has no such operation; section 5
    takes a mutation call, its events and their application to be complete
    when the call returns, and so the stream is read to its end within the
    call here.  The program differs in the timing: the test suite finds
    the removeQuad counter still at 0 when removeMatches and deleteGraph
    return, the stream delivers afterwards.  A state after a call that
    reaches [remove] is therefore the object as it is when the stream has
    been read to its end, and where the REMOVE_QUAD events of the stream
    stand in the log relative to the batch events of the same call is not
    meaningful; the statements on such calls give the two kinds of event
    separately. *)
Definition remove {W} (this_removeQuad : Quad -> M W bool)
    (stream : EventEmitter) : M W EventEmitter :=
  for_of stream (fun quad => this_removeQuad quad ;;; ret tt) ;;;
  ret stream.

(** Modelled from the spec: [removeByPattern(subject?, predicate?, object?,
    graph?)] (section 6). *)
Definition removeMatches {W} (this_remove : EventEmitter -> M W EventEmitter)
    (s p o g : OTerm) : M W EventEmitter :=
  stream <- getQuads s p o g ;;
  this_remove stream.

(** Modelled from the spec: [removeGraph(graph)] (section 6). *)
Definition deleteGraph {W}
    (this_removeMatches : OTerm -> OTerm -> OTerm -> OTerm -> M W EventEmitter)
    (graph : Term) : M W EventEmitter :=
  this_removeMatches None None None (Some graph).

End Store.

(** ** [SyncStore] (sync-store.ts, lines 18-116) *)

Module SyncStore.

Definition addQuad {W} (quad : Quad) : M W bool :=
  result <- Store.addQuad quad ;;
  dispatchEvent (mkEvent ADD_QUAD (ArgsQuad quad)) ;;;
  ret result.

Definition removeQuad {W} (quad : Quad) : M W bool :=
  result <- Store.removeQuad quad ;;
  dispatchEvent (mkEvent REMOVE_QUAD (ArgsQuad quad)) ;;;
  ret result.

Definition addQuads {W} (quads : list Quad) : M W unit :=
  Store.addQuads addQuad quads ;;;
  dispatchEvent (mkEvent ADD_QUADS (ArgsQuads quads)).

Definition remove {W} (stream : EventEmitter) : M W EventEmitter :=
  result <- Store.remove removeQuad stream ;;
  dispatchEvent (mkEvent REMOVE_QUADS (ArgsStream stream)) ;;;
  ret result.

Definition removeQuads {W} (quads : list Quad) : M W unit :=
  Store.removeQuads removeQuad quads ;;;
  dispatchEvent (mkEvent REMOVE_QUADS (ArgsQuads quads)).

Definition removeMatches {W} (s p o g : OTerm) : M W EventEmitter :=
  quadsToRemove <- Store.getQuads s p o g ;;
  if negb (0 <? length quadsToRemove)%nat
  then throw (Error "Invalid quads")
  else
    result <- Store.removeMatches remove s p o g ;;
    (if (0 <? length quadsToRemove)%nat
     then dispatchEvent (mkEvent REMOVE_QUADS (QuadArray quadsToRemove))
     else ret tt) ;;;
    ret result.

Definition deleteGraph {W} (graph : Term) : M W EventEmitter :=
  (* First, get all quads in the graph that will be deleted *)
  quadsToRemove <- Store.getQuads None None None (Some graph) ;;
  (* Then perform the actual deletion *)
  result <- Store.deleteGraph removeMatches graph ;;
  (* Dispatch event with the actual quads that were removed *)
  (if (0 <? length quadsToRemove)%nat
   then dispatchEvent (mkEvent REMOVE_QUADS (QuadArray quadsToRemove))
   else ret tt) ;;;
  ret result.

End SyncStore.

(** ** [SyncStore], the revision with [REMOVE_MATCHES] and [DELETE_GRAPH]
    events (sync-store.ts, lines 177-262).  [remove] is not overridden. *)

Module SyncStoreRev.

Definition addQuad {W} (quad : Quad) : M W bool :=
  result <- Store.addQuad quad ;;
  dispatchEvent (mkEvent ADD_QUAD (ArgsQuad quad)) ;;;
  ret result.

Definition removeQuad {W} (quad : Quad) : M W bool :=
  result <- Store.removeQuad quad ;;
  dispatchEvent (mkEvent REMOVE_QUAD (ArgsQuad quad)) ;;;
  ret result.

Definition addQuads {W} (quads : list Quad) : M W unit :=
  Store.addQuads addQuad quads ;;;
  dispatchEvent (mkEvent ADD_QUADS (ArgsQuads quads)).

Definition removeQuads {W} (quads : list Quad) : M W unit :=
  Store.removeQuads removeQuad quads ;;;
  dispatchEvent (mkEvent REMOVE_QUADS (ArgsQuads quads)).

Definition removeMatches {W} (s p o g : OTerm) : M W EventEmitter :=
  quadsToRemove <- Store.getQuads s p o g ;;
  result <- Store.removeMatches (Store.remove removeQuad) s p o g ;;
  (if (0 <? length quadsToRemove)%nat
   then dispatchEvent (mkEvent REMOVE_MATCHES (QuadArray quadsToRemove))
   else ret tt) ;;;
  ret result.

Definition deleteGraph {W} (graph : Term) : M W EventEmitter :=
  (* First, get all quads in the graph that will be deleted. *)
  quadsToRemove <- Store.getQuads None None None (Some graph) ;;
  (* Then perform the actual deletion. *)
  result <- Store.deleteGraph removeMatches graph ;;
  (* Dispatch event with the actual quads that were removed. *)
  (if (0 <? length quadsToRemove)%nat
   then dispatchEvent (mkEvent DELETE_GRAPH (QuadArray quadsToRemove))
   else ret tt) ;;;
  ret result.

End SyncStoreRev.

(** ** The search index: Orama *)

Module Orama.

Abbreviation DB := (gmap string OramaDoc).

(** Modelled from the spec: [create], the empty SearchIndex; the
    @orama/orama package is not part of the sources. *)
Definition create : DB := ∅.

(** Modelled from the spec: [insert] of @orama/orama, the SearchIndex's
    [upsert(document)] of section 4.5: idempotent, inserting a document
    under an existing key replaces it, never errors on duplicate keys. *)
Definition insert (db : DB) (doc : OramaDoc) : DB := <[ doc_id doc := doc ]> db.

(** Modelled from the spec: [remove] of @orama/orama, section 4.5
    [remove(key)]: no-op if key absent, never errors on missing key. *)
Definition remove (db : DB) (id : string) : DB := delete id db.

(** Modelled from the spec: [count] of @orama/orama, section 4.5
    [count() -> integer]. *)
Definition count (db : DB) : nat := size db.

(** Modelled from the spec: [getByID] of @orama/orama, section 4.5
    [getByKey(key) -> Document | absent-marker], never throws for a miss. *)
Definition getByID (db : DB) (id : string) : option OramaDoc := db !! id.

(** The parameters of a [mode: "vector"] search. *)
Record VectorSearchParams : Type := mkParams
  { vector_value : list number;
    vector_property : string;
    similarity : Q;
    limit : Z }.

(** The named vector fields of the schema. *)
Definition vectorField (property : string) (doc : OramaDoc) : option (list number) :=
  if decide (property = "subjectEmbedding") then Some (doc_subjectEmbedding doc)
  else if decide (property = "predicateEmbedding") then Some (doc_predicateEmbedding doc)
  else if decide (property = "objectEmbedding") then Some (doc_objectEmbedding doc)
  else if decide (property = "combinedEmbedding") then Some (doc_combinedEmbedding doc)
  else None.

Definition knownVectorField (property : string) : bool :=
  bool_decide (property = "subjectEmbedding")
  || bool_decide (property = "predicateEmbedding")
  || bool_decide (property = "objectEmbedding")
  || bool_decide (property = "combinedEmbedding").

(** Insertion into a list of hits ranked by descending similarity. *)
Fixpoint rank_insert (hit : OramaDoc * Q) (hits : list (OramaDoc * Q))
    : list (OramaDoc * Q) :=
  match hits with
  | [] => [hit]
  | h :: hits' =>
      if Qle_bool (snd h) (snd hit) then hit :: h :: hits'
      else h :: rank_insert hit hits'
  end.

(** Modelled from the spec: [search] of @orama/orama in vector mode,
    section 4.5 (2): an unrecognized field name, a [minSimilarity] outside
    [0,1] and (section 7) a non-positive [limit] fail with a
    ValidationError; otherwise compute the cosine similarity between the
    query vector and each document's selected field vector, keep only hits
    with similarity >= [minSimilarity], rank descending by similarity,
    truncate to [limit].  The similarity measure on doubles is taken as
    given. *)
Definition search (cosineSimilarity : list number -> list number -> Q)
    (db : DB) (params : VectorSearchParams) : Exception + list (OramaDoc * Q) :=
  if negb (knownVectorField (vector_property params)) then inl ValidationError
  else if negb (Qle_bool 0 (similarity params) && Qle_bool (similarity params) 1)
  then inl ValidationError
  else if (limit params <=? 0)%Z then inl ValidationError
  else
    let scored :=
      omap (fun kv : string * OramaDoc =>
              field ← vectorField (vector_property params) (snd kv);
              Some (snd kv, cosineSimilarity (vector_value params) field))
           (map_to_list db) in
    let kept := List.filter (fun hit => Qle_bool (similarity params) (snd hit)) scored in
    inr (take (Z.to_nat (limit params)) (fold_right rank_insert [] kept)).

End Orama.

(** ** [OramaStore] (orama-store.ts with vector fields; sync-store.ts, lines
    456-677).  The object holds [syncStore] and [oramaDB]; the listeners
    close over [oramaDB], which is the listener state of the store. *)

Module OramaStore.

Abbreviation t := (State Orama.DB).

(** The listener for [SyncStoreEvent.ADD_QUAD]. *)
Definition onAddQuad (event : CustomEvent) (oramaDB : Orama.DB) : Orama.DB :=
  match detail0 (detail event) with
  | Some quad =>
      let id := generateQuadId quad in
      let doc := quadToOramaDoc quad id in
      Orama.insert oramaDB doc
  | None => oramaDB
  end.

(** The listener for [SyncStoreEvent.REMOVE_QUAD]. *)
Definition onRemoveQuad (event : CustomEvent) (oramaDB : Orama.DB) : Orama.DB :=
  match detail0 (detail event) with
  | Some quad =>
      let id := generateQuadId quad in
      Orama.remove oramaDB id
  | None => oramaDB
  end.

Definition setupEventListeners : M Orama.DB unit :=
  addEventListener ADD_QUAD onAddQuad ;;;
  addEventListener REMOVE_QUAD onRemoveQuad.

(** [new OramaStore()] *)
Definition new : t :=
  snd (setupEventListeners (mkState [] [] [] Orama.create)).

Definition getSize (self : t) : nat := Store.size self.

Definition getDocumentCount (self : t) : nat := Orama.count (world self).

Definition isInSync (self : t) : bool :=
  let storeSize := getSize self in
  let oramaCount := getDocumentCount self in
  bool_decide (storeSize = oramaCount).

Definition getDocumentById (self : t) (id : string) : option OramaDoc :=
  Orama.getByID (world self) id.

Definition addQuad (quad : Quad) : M Orama.DB unit :=
  SyncStore.addQuad quad ;;; ret tt.

Definition removeQuad (quad : Quad) : M Orama.DB unit :=
  SyncStore.removeQuad quad ;;; ret tt.

Definition addQuads (quads : list Quad) : M Orama.DB unit :=
  for_of quads (fun quad => SyncStore.addQuad quad ;;; ret tt).

Definition removeQuads (quads : list Quad) : M Orama.DB unit :=
  for_of quads (fun quad => SyncStore.removeQuad quad ;;; ret tt).

(** [vectorSearch(query, vectorProperty = "combinedEmbedding",
    similarity = 0.8, limit = 10)]; [None] is an omitted argument. *)
Definition vectorSearch (cosineSimilarity : list number -> list number -> Q)
    (query : string) (vectorProperty : option string)
    (similarity : option Q) (limit : option Z)
    : M Orama.DB (list (OramaDoc * Q)) :=
  fun self =>
    let vectorProperty := default "combinedEmbedding" vectorProperty in
    let similarity := default (8 # 10)%Q similarity in
    let limit := default 10%Z limit in
    let queryEmbedding := generateMockEmbedding query in
    match Orama.search cosineSimilarity (world self)
            (Orama.mkParams queryEmbedding vectorProperty similarity limit) with
    | inl e => (Threw e, self)
    | inr hits => (Returned hits, self)
    end.

(** A mutation call of the public interface. *)
Inductive Mutation : Type :=
| AddQuad (quad : Quad)
| RemoveQuad (quad : Quad)
| AddQuads (quads : list Quad)
| RemoveQuads (quads : list Quad).

Definition call (m : Mutation) : M Orama.DB unit :=
  match m with
  | AddQuad quad => addQuad quad
  | RemoveQuad quad => removeQuad quad
  | AddQuads quads => addQuads quads
  | RemoveQuads quads => removeQuads quads
  end.

(** The quads a call mentions. *)
Definition mentioned (m : Mutation) : list Quad :=
  match m with
  | AddQuad quad | RemoveQuad quad => [quad]
  | AddQuads quads | RemoveQuads quads => quads
  end.

(** The outcomes and states observed when each call of a sequence
    returns, starting from [self]. *)
Fixpoint observe (calls : list Mutation) (self : t) : list (Outcome unit * t) :=
  match calls with
  | [] => []
  | m :: calls' =>
      let r := call m self in
      r :: observe calls' (snd r)
  end.

(** No two distinct quads of the list share a key. *)
Definition collision_free (quads : list Quad) : bool :=
  forallb (fun a =>
    forallb (fun b =>
      implb (bool_decide (generateQuadId a = generateQuadId b))
            (bool_decide (a = b))) quads) quads.

(** No two distinct quads of the list share a key, as a proposition. *)
Definition injective_on (U : list Quad) : Prop :=
  forall a b, a ∈ U -> b ∈ U -> generateQuadId a = generateQuadId b -> a = b.

(** The index mirrors the store: the two listeners are installed, and the
    keys of the index are exactly the keys of the quads of the store,
    all of which come from [U]. *)
Definition mirrors (U : list Quad) (self : t) : Prop :=
  target self = target new
  /\ NoDup (quads self)
  /\ (forall q, q ∈ quads self -> q ∈ U)
  /\ (forall k, is_Some (world self !! k)
                <-> exists q, q ∈ quads self /\ generateQuadId q = k)
  /\ size (world self) = length (quads self).

End OramaStore.

(** ** Sample facts (section 8 of the specification) *)

Definition person1_name_Alice : Quad :=
  mkQuad (NamedNode "http://example.org/person1") (NamedNode "http://example.org/name")
         (Literal "Alice" (Some "") (Some xsd_string)) DefaultGraph.

Definition person1_age_25 : Quad :=
  mkQuad (NamedNode "http://example.org/person1") (NamedNode "http://example.org/age")
         (Literal "25" (Some "") (Some xsd_string)) DefaultGraph.

Definition person2_name_Bob : Quad :=
  mkQuad (NamedNode "http://example.org/person2") (NamedNode "http://example.org/name")
         (Literal "Bob" (Some "") (Some xsd_string)) (NamedNode "http://example.org/graph1").

(** A store with one quad in the default graph and one in a named graph,
    and nobody listening. *)
Definition two_graph_store : State unit :=
  mkState [person1_name_Alice; person2_name_Bob] [] [] tt.

(** A session of mutation calls on a fresh [OramaStore]. *)
Definition sample_calls : list OramaStore.Mutation :=
  [ OramaStore.AddQuad person1_name_Alice;
    OramaStore.AddQuads [person1_age_25; person2_name_Bob; person1_name_Alice];
    OramaStore.RemoveQuad person1_age_25;
    OramaStore.RemoveQuad person1_age_25;
    OramaStore.AddQuad person1_name_Alice;
    OramaStore.RemoveQuads [person2_name_Bob; person1_name_Alice] ].

(** ** Pre- and postconditions of method bodies

    [hoare P c Q E]: started in a state satisfying [P], the body [c] either
    returns a value [a] in a state satisfying [Q a], or throws in a state
    satisfying [E]. *)
Definition hoare {W A} (P : State W -> Prop) (c : M W A)
    (Q : A -> State W -> Prop) (E : State W -> Prop) : Prop :=
  forall st, P st ->
    match c st with
    | (Returned a, st') => Q a st'
    | (Threw _, st') => E st'
    end.

(** ** Calls that reach the store of an [OramaStore]

    Besides the methods of [OramaStore] itself, a caller holding
    [oramaStore.getStore()] can use the bulk and pattern methods of the
    [SyncStore] (this is what a SPARQL engine given the store as source
    does). *)
Module Session.

Inductive Call : Type :=
| Orama (m : OramaStore.Mutation)            (* a method of OramaStore *)
| AddQuads (quads : list Quad)               (* getStore().addQuads(quads) *)
| RemoveQuads (quads : list Quad)            (* getStore().removeQuads(quads) *)
| Remove (stream : EventEmitter)             (* getStore().remove(stream) *)
| RemoveMatches (s p o g : OTerm)            (* getStore().removeMatches(s, p, o, g) *)
| DeleteGraph (graph : Term).                (* getStore().deleteGraph(graph) *)

Definition run (c : Call) : M Orama.DB unit :=
  match c with
  | Orama m => OramaStore.call m
  | AddQuads quads => SyncStore.addQuads quads
  | RemoveQuads quads => SyncStore.removeQuads quads
  | Remove stream => SyncStore.remove stream ;;; ret tt
  | RemoveMatches s p o g => SyncStore.removeMatches s p o g ;;; ret tt
  | DeleteGraph graph => SyncStore.deleteGraph graph ;;; ret tt
  end.

(** The quads a call names in its arguments. *)
Definition mentioned (c : Call) : list Quad :=
  match c with
  | Orama m => OramaStore.mentioned m
  | AddQuads quads | RemoveQuads quads => quads
  | Remove stream => stream
  | RemoveMatches _ _ _ _ | DeleteGraph _ => []
  end.

(** The object after a sequence of calls; a call that throws leaves the
    object as it was at the throw, and the caller carries on. *)
Definition after (calls : list Call) (self : OramaStore.t) : OramaStore.t :=
  fold_left (fun self c => snd (run c self)) calls self.

(** Every document of the index is the projection of a quad of the
    store, filed under that quad's key. *)
Definition linked (self : OramaStore.t) : Prop :=
  target self = target OramaStore.new
  /\ NoDup (quads self)
  /\ forall k d, world self !! k = Some d ->
       exists q, q ∈ quads self /\ generateQuadId q = k /\ d = quadToOramaDoc q k.

End Session.

(** Two texts with the same hash (as for Java's [String.hashCode]). *)
Definition text_Aa : string := "Aa".
Definition text_BB : string := "BB".

(** A session that also uses the store's own methods: a batch insert, a
    pattern removal, the same removal again (nothing matches any more), a
    graph deletion, and a stream removal. *)
Definition sample_session : list Session.Call :=
  [ Session.AddQuads [person1_name_Alice; person1_age_25; person2_name_Bob];
    Session.RemoveMatches None (Some (NamedNode "http://example.org/age")) None None;
    Session.RemoveMatches None (Some (NamedNode "http://example.org/age")) None None;
    Session.DeleteGraph (NamedNode "http://example.org/graph1");
    Session.Orama (OramaStore.AddQuad person2_name_Bob);
    Session.Remove [person1_name_Alice; person1_age_25] ].

(** ** Calls made on a [SyncStore] directly

    The mutating methods of the class in the revision of lines 177-262,
    the one the test suite runs against; [remove] is the base method
    there. *)
Module Direct.

Inductive Call : Type :=
| AddQuad (quad : Quad)
| RemoveQuad (quad : Quad)
| AddQuads (quads : list Quad)
| RemoveQuads (quads : list Quad)
| Remove (stream : EventEmitter)
| RemoveMatches (s p o g : OTerm)
| DeleteGraph (graph : Term).

Definition runRev {W} (c : Call) : M W unit :=
  match c with
  | AddQuad quad => SyncStoreRev.addQuad quad ;;; ret tt
  | RemoveQuad quad => SyncStoreRev.removeQuad quad ;;; ret tt
  | AddQuads quads => SyncStoreRev.addQuads quads
  | RemoveQuads quads => SyncStoreRev.removeQuads quads
  | Remove stream => Store.remove SyncStoreRev.removeQuad stream ;;; ret tt
  | RemoveMatches s p o g => SyncStoreRev.removeMatches s p o g ;;; ret tt
  | DeleteGraph graph => SyncStoreRev.deleteGraph graph ;;; ret tt
  end.

(** The object after a sequence of calls; a call that throws leaves the
    object as it was at the throw, and the caller carries on. *)
Definition afterRev {W} (calls : list Call) (st : State W) : State W :=
  fold_left (fun st c => snd (runRev c st)) calls st.

(** What the listeners [ls] make of the events [evs], run in order. *)
Definition replay {W} (ls : list (SyncStoreEvent * (CustomEvent -> W -> W)))
    (evs : list CustomEvent) (w : W) : W :=
  fold_left (fun w ev => run_listeners ev ls w) evs w.

(** The number of events of type [ty] among [evs]. *)
Definition tally (ty : SyncStoreEvent) (evs : list CustomEvent) : nat :=
  length (filter (fun ev => type ev = ty) evs).

(** [st] is [st0] with more events dispatched: the listeners are those of
    [st0], the log of [st0] has grown by some [evs], and the listener state
    is what the listeners make of [evs]. *)
Definition follows {W} (st0 st : State W) : Prop :=
  target st = target st0
  /\ exists evs, dispatched st = dispatched st0 ++ evs
       /\ world st = replay (target st0) evs (world st0).

(** The events of the two elementary mutations among [evs], and the
    others (the batch events), each in the order of dispatch. *)
Definition elementaryEvents (evs : list CustomEvent) : list CustomEvent :=
  filter (fun ev => type ev = ADD_QUAD \/ type ev = REMOVE_QUAD) evs.

Definition batchEvents (evs : list CustomEvent) : list CustomEvent :=
  filter (fun ev => type ev <> ADD_QUAD /\ type ev <> REMOVE_QUAD) evs.

End Direct.

(** ** The listeners of the test suite of sync-store.ts *)

Module Monitored.

(** The [eventCounts] object. *)
Record EventCounts : Type := mkCounts
  { addQuad : nat;
    removeQuad : nat;
    addQuads : nat;
    removeQuads : nat;
    removeMatches : nat;
    deleteGraph : nat }.

(** [createMonitoredStore()] (lines 9-45): a new [SyncStore] and six
    listeners, each incrementing the counter of its event type. *)
Definition createMonitoredStore : State EventCounts :=
  snd ((addEventListener ADD_QUAD
          (fun _ c => mkCounts (S (addQuad c)) (removeQuad c) (addQuads c)
                        (removeQuads c) (removeMatches c) (deleteGraph c)) ;;;
        addEventListener REMOVE_QUAD
          (fun _ c => mkCounts (addQuad c) (S (removeQuad c)) (addQuads c)
                        (removeQuads c) (removeMatches c) (deleteGraph c)) ;;;
        addEventListener ADD_QUADS
          (fun _ c => mkCounts (addQuad c) (removeQuad c) (S (addQuads c))
                        (removeQuads c) (removeMatches c) (deleteGraph c)) ;;;
        addEventListener REMOVE_QUADS
          (fun _ c => mkCounts (addQuad c) (removeQuad c) (addQuads c)
                        (S (removeQuads c)) (removeMatches c) (deleteGraph c)) ;;;
        addEventListener REMOVE_MATCHES
          (fun _ c => mkCounts (addQuad c) (removeQuad c) (addQuads c)
                        (removeQuads c) (S (removeMatches c)) (deleteGraph c)) ;;;
        addEventListener DELETE_GRAPH
          (fun _ c => mkCounts (addQuad c) (removeQuad c) (addQuads c)
                        (removeQuads c) (removeMatches c) (S (deleteGraph c))))
       (mkState [] [] [] (mkCounts 0 0 0 0 0 0))).

End Monitored.

(** The test "Track quads by subject IRI": a map from subject IRI to a
    count, kept by four listeners.  The counts are JavaScript numbers that
    only ever move by 1, integers here. *)
Module Tracking.

Definition updateSubjectCounts (quads : list Quad) (increment : Z)
    (subjectQuadCounts : gmap string Z) : gmap string Z :=
  fold_left
    (fun counts quad =>
       let subjectIri := value quad.(subject) in
       let currentCount := default 0%Z (counts !! subjectIri) in
       <[ subjectIri := (currentCount + increment)%Z ]> counts)
    quads subjectQuadCounts.

(** [event.detail[0] as Quad]: the events of the two types listened to are
    dispatched by [addQuad] and [removeQuad] with their arguments as
    detail, so the quad is there; the other branch is never taken. *)
Definition onAddQuad (event : CustomEvent) (counts : gmap string Z) : gmap string Z :=
  match detail0 (detail event) with
  | Some quad => updateSubjectCounts [quad] 1 counts
  | None => counts
  end.

Definition onRemoveQuad (event : CustomEvent) (counts : gmap string Z) : gmap string Z :=
  match detail0 (detail event) with
  | Some quad => updateSubjectCounts [quad] (-1) counts
  | None => counts
  end.

(** [event.detail as Quad[]]: REMOVE_MATCHES and DELETE_GRAPH events are
    dispatched with the array of snapshotted quads as detail (an argument
    list holding one quad is such an array too); the other branch is never
    taken. *)
Definition detailQuads (d : Detail) : option (list Quad) :=
  match d with
  | QuadArray quads => Some quads
  | ArgsQuad quad => Some [quad]
  | _ => None
  end.

Definition onRemoveMatches (event : CustomEvent) (counts : gmap string Z)
    : gmap string Z :=
  match detailQuads (detail event) with
  | Some quads => updateSubjectCounts quads (-1) counts
  | None => counts
  end.

Definition onDeleteGraph (event : CustomEvent) (counts : gmap string Z)
    : gmap string Z :=
  match detailQuads (detail event) with
  | Some quads => updateSubjectCounts quads (-1) counts
  | None => counts
  end.

(** The store of the test with its four tracking listeners (the six
    counting listeners of [createMonitoredStore] act on another object and
    are left out). *)
Definition trackedStore : State (gmap string Z) :=
  snd ((addEventListener ADD_QUAD onAddQuad ;;;
        addEventListener REMOVE_QUAD onRemoveQuad ;;;
        addEventListener REMOVE_MATCHES onRemoveMatches ;;;
        addEventListener DELETE_GRAPH onDeleteGraph)
       (mkState [] [] [] ∅)).

(** Whether [ev] is an event of type [ty] on a quad with subject [iri]. *)
Definition about (ty : SyncStoreEvent) (iri : string) (ev : CustomEvent) : bool :=
  bool_decide (type ev = ty)
  && match detail0 (detail ev) with
     | Some quad => bool_decide (value quad.(subject) = iri)
     | None => false
     end.

(** How many events of type [ty] on subject [iri] are among [evs]. *)
Definition events (ty : SyncStoreEvent) (iri : string) (evs : list CustomEvent) : nat :=
  length (filter (fun ev => about ty iri ev = true) evs).

(** How many quads with subject [iri] the snapshot of [ev] holds, for a
    REMOVE_MATCHES or DELETE_GRAPH event; 0 for the other events. *)
Definition sweptBy (iri : string) (ev : CustomEvent) : nat :=
  if bool_decide (type ev = REMOVE_MATCHES \/ type ev = DELETE_GRAPH)
  then match detailQuads (detail ev) with
       | Some quads => length (filter (fun quad => value quad.(subject) = iri) quads)
       | None => 0
       end
  else 0.

(** The same, summed over the events [evs]. *)
Definition swept (iri : string) (evs : list CustomEvent) : nat :=
  sum_list (map (sweptBy iri) evs).

End Tracking.

(** * Properties *)

(** ** Texts as lists of characters *)

Lemma list_ascii_of_string_app (a b : string) :
  list_ascii_of_string (a +:+ b) = list_ascii_of_string a ++ list_ascii_of_string b.
Proof. induction a as [|c a IH]; simpl; [reflexivity | now rewrite IH]. Qed.

Lemma list_ascii_of_string_inj (a b : string) :
  list_ascii_of_string a = list_ascii_of_string b -> a = b.
Proof.
  intros H.
  rewrite <- (string_of_list_ascii_of_string a), <- (string_of_list_ascii_of_string b).
  now rewrite H.
Qed.

Lemma contains_delimiter_false (s : string) :
  contains_delimiter s = false -> ~ In "|"%char (list_ascii_of_string s).
Proof.
  induction s as [|c s IH]; simpl; [tauto |].
  intros H. apply orb_false_iff in H as [Hc Hs].
  intros [-> | Hin]; [| now apply IH].
  now rewrite Ascii.eqb_refl in Hc.
Qed.

(** Cutting at the first occurrence of the delimiter. *)
Lemma cut_first (d : ascii) (a a' r r' : list ascii) :
  ~ In d a -> ~ In d a' -> a ++ d :: r = a' ++ d :: r' -> a = a' /\ r = r'.
Proof.
  revert a'. induction a as [|c a IH]; intros [|c' a'] Ha Ha' E; simpl in *.
  - now inversion E.
  - inversion E; subst. tauto.
  - inversion E; subst. tauto.
  - inversion E; subst.
    destruct (IH a') as [-> ->]; auto.
Qed.

(** Cutting at the last occurrence of the delimiter. *)
Lemma cut_last (d : ascii) (a a' r r' : list ascii) :
  ~ In d a -> ~ In d a' -> r ++ d :: a = r' ++ d :: a' -> r = r' /\ a = a'.
Proof.
  intros Ha Ha' E.
  apply (f_equal (@rev ascii)) in E.
  rewrite !rev_app_distr in E. simpl in E. rewrite <- !app_assoc in E. simpl in E.
  apply cut_first in E as [E1 E2]; try (rewrite <- in_rev; assumption).
  split.
  - rewrite <- (rev_involutive r), <- (rev_involutive r'). now rewrite E2.
  - rewrite <- (rev_involutive a), <- (rev_involutive a'). now rewrite E1.
Qed.

Lemma termType_no_delimiter (t : Term) :
  ~ In "|"%char (list_ascii_of_string (termType t)).
Proof. apply contains_delimiter_false. now destruct t. Qed.

Lemma delimiter_free_spec (quad : Quad) :
  delimiter_free quad = true ->
  let no s := ~ In "|"%char (list_ascii_of_string s) in
  no (value quad.(subject)) /\ no (value quad.(predicate))
  /\ no (value quad.(graph)) /\ no (objectLanguageOf quad.(object))
  /\ no (objectDatatypeOf quad.(object)).
Proof.
  unfold delimiter_free. rewrite !andb_true_iff, !negb_true_iff.
  intros [[[[H1 H2] H3] H4] H5]; cbv zeta.
  repeat split; now apply contains_delimiter_false.
Qed.

(** The key is the components joined by the delimiter, in order. *)
Lemma generateQuadId_join (quad : Quad) :
  generateQuadId quad = deriveKey_spec quad.
Proof. now destruct quad. Qed.

Lemma generateQuadId_chars (quad : Quad) :
  let chars := list_ascii_of_string in
  let d := "|"%char in
  chars (generateQuadId quad) =
    chars (value quad.(subject)) ++ d :: chars (value quad.(predicate)) ++ d ::
    ((((chars (value quad.(object)) ++ d :: chars (value quad.(graph)))
       ++ d :: chars (termType quad.(object)))
      ++ d :: chars (objectLanguageOf quad.(object)))
     ++ d :: chars (objectDatatypeOf quad.(object))).
Proof.
  destruct quad as [s p o g]; cbv zeta. unfold generateQuadId.
  fold (objectLanguageOf o). fold (objectDatatypeOf o).
  repeat (rewrite list_ascii_of_string_app; simpl).
  now rewrite <- !app_assoc.
Qed.

(** Away from delimiter collisions, equal keys mean equal components. *)
Lemma generateQuadId_components (A B : Quad) :
  delimiter_free A = true -> delimiter_free B = true ->
  generateQuadId A = generateQuadId B -> keyComponents A = keyComponents B.
Proof.
  intros HA HB E.
  apply delimiter_free_spec in HA as (As & Ap & Ag & Al & Ad).
  apply delimiter_free_spec in HB as (Bs & Bp & Bg & Bl & Bd).
  apply (f_equal list_ascii_of_string) in E.
  rewrite !generateQuadId_chars in E. cbv zeta in E.
  apply cut_first in E as [Es E]; [| assumption..].
  apply cut_first in E as [Ep E]; [| assumption..].
  apply cut_last in E as [E Ed]; [| assumption..].
  apply cut_last in E as [E El]; [| assumption..].
  apply cut_last in E as [E Et]; [| apply termType_no_delimiter..].
  apply cut_last in E as [Eo Eg]; [| assumption..].
  apply list_ascii_of_string_inj in Es, Ep, Eo, Eg, Et, El, Ed.
  unfold keyComponents. now rewrite Es, Ep, Eo, Eg, Et, El, Ed.
Qed.

(** C3, as stated, fails: two facts that differ in subject, predicate and
    object value, one with the delimiter inside its object value and the
    other with it inside its subject, are given the same key. *)
Lemma generateQuadId_delimiter_collision :
  keyComponents quad_bar_in_object <> keyComponents quad_bar_in_subject
  /\ generateQuadId quad_bar_in_object = generateQuadId quad_bar_in_subject.
Proof. split; [discriminate | reflexivity]. Qed.

(** C3 (amended): for every fact the key is the concatenation of its seven
    components in the fixed order subject value, predicate value, object
    value, graph value, object kind, language, datatype, joined by "|", with
    the empty string for an absent language tag or datatype; so the key is
    a function of the seven components alone: facts with the same
    components have the same key.  Among facts whose subject, predicate,
    graph, language and datatype do not contain "|" (the object value may)
    the key is injective on the components: two such facts have the same
    key exactly when they agree on all seven.  It is not injective on
    facts: of the subject, predicate and graph terms only the values enter
    the key, not the kinds, so a fact with blank node [v] as subject and the
    fact with named node [v] in its place are different facts with one
    key. *)
Theorem generateQuadId_injective_without_delimiter (A B : Quad) :
  generateQuadId A = String.concat "|" (keyComponents A)
  /\ (keyComponents A = keyComponents B -> generateQuadId A = generateQuadId B)
  /\ (delimiter_free A = true -> delimiter_free B = true ->
      (generateQuadId A = generateQuadId B <-> keyComponents A = keyComponents B))
  /\ (forall s p g : Term,
        value s = value A.(subject) -> value p = value A.(predicate) ->
        value g = value A.(graph) ->
        generateQuadId (mkQuad s p A.(object) g) = generateQuadId A)
  /\ (forall v : string,
        mkQuad (BlankNode v) A.(predicate) A.(object) A.(graph)
        <> mkQuad (NamedNode v) A.(predicate) A.(object) A.(graph)
        /\ generateQuadId (mkQuad (BlankNode v) A.(predicate) A.(object) A.(graph))
           = generateQuadId (mkQuad (NamedNode v) A.(predicate) A.(object) A.(graph))).
Proof.
  assert (Hfun : forall A B : Quad,
            keyComponents A = keyComponents B -> generateQuadId A = generateQuadId B).
  { intros A' B' E. rewrite !generateQuadId_join. unfold deriveKey_spec. now rewrite E. }
  split; [apply generateQuadId_join |]. split; [apply Hfun |]. split; [| split].
  - intros HA HB. split; [now apply generateQuadId_components | apply Hfun].
  - intros s p g Es Ep Eg. apply Hfun. unfold keyComponents.
    cbn [subject predicate object graph]. now rewrite Es, Ep, Eg.
  - intros v. split; [discriminate | reflexivity].
Qed.

Lemma generateQuadId_injective_without_delimiter_witness :
  generateQuadId person1_name_Alice <> generateQuadId person1_age_25
  /\ generateQuadId person1_name_Alice
     = "http://example.org/person1|http://example.org/name|Alice||Literal||http://www.w3.org/2001/XMLSchema#string".
Proof.
  destruct (generateQuadId_injective_without_delimiter
              person1_name_Alice person1_age_25) as (HA & _ & Hinj & _ & _).
  split; [| exact HA].
  intros E. apply Hinj in E; [| reflexivity | reflexivity].
  revert E.
  apply (bool_decide_eq_false_1
           (keyComponents person1_name_Alice = keyComponents person1_age_25)).
  vm_compute. reflexivity.
Defined.

(** ** The mock embedding *)

Lemma fold_insert_length {A} (f : nat -> A) (idxs : list nat) (e : list A) :
  length (fold_left (fun e i => <[ i := f i ]> e) idxs e) = length e.
Proof.
  revert e. induction idxs as [|i idxs IH]; intros e; simpl; [reflexivity |].
  now rewrite IH, length_insert.
Qed.

Lemma fold_insert_lookup {A} (f : nat -> A) (idxs : list nat) (e : list A) (j : nat) :
  fold_left (fun e i => <[ i := f i ]> e) idxs e !! j
  = if decide (j ∈ idxs /\ j < length e) then Some (f j) else e !! j.
Proof.
  revert e. induction idxs as [|i idxs IH]; intros e; simpl.
  - destruct (decide (j ∈ [] /\ j < length e)) as [[H _] | _]; [| reflexivity].
    now apply not_elem_of_nil in H.
  - rewrite IH, length_insert.
    destruct (decide (j = i)) as [-> | Hne].
    + destruct (decide (i < length e)) as [Hlt | Hge].
      * rewrite list_lookup_insert_eq by assumption.
        rewrite (decide_True (P := i ∈ i :: idxs /\ _)) by (split; [left | assumption]).
        now destruct (decide (i ∈ idxs /\ i < length e)).
      * rewrite list_insert_ge by lia.
        rewrite !decide_False by tauto. reflexivity.
    + rewrite list_lookup_insert_ne by congruence.
      destruct (decide (j ∈ idxs /\ j < length e)) as [[H1 H2] | H].
      * rewrite decide_True; [reflexivity | split; [now right | assumption]].
      * rewrite decide_False; [reflexivity |].
        intros [H1 H2]. apply H. split; [| assumption].
        apply elem_of_cons in H1 as [? | ?]; [contradiction | assumption].
Qed.

Lemma fill_entries {A} (f : nat -> A) (x : A) (n : nat) :
  fold_left (fun e i => <[ i := f i ]> e) (seq 0 n) (replicate n x) = map f (seq 0 n).
Proof.
  apply list_eq. intros j.
  rewrite fold_insert_lookup, length_replicate.
  change (map f (seq 0 n)) with (f <$> seq 0 n). rewrite list_lookup_fmap.
  destruct (decide (j < n)) as [Hlt | Hge].
  - rewrite lookup_seq_lt by assumption.
    rewrite decide_True; [reflexivity |].
    split; [| assumption]. apply elem_of_seq. lia.
  - rewrite lookup_seq_ge by lia.
    rewrite decide_False by tauto.
    apply lookup_replicate_None. lia.
Qed.

(** The loop fills every slot: entry [i] is [Math.sin(hash + i) * 0.5]. *)
Lemma generateMockEmbedding_entries (text : string) :
  generateMockEmbedding text
  = map (fun i => Mul (Math_sin (Int (hashOf text + Z.of_nat i))) Lit_0_5)
        (seq 0 EMBEDDING_DIMENSION).
Proof. apply fill_entries. Qed.

(** C8: the embedding has dimension 384 for every text, equal texts get
    equal vectors, and the empty text does not fail: it gets the fixed
    vector whose entry [i] is [Math.sin(i) * 0.5]. *)
Theorem generateMockEmbedding_dimension_deterministic (text text' : string) :
  text = text' ->
  generateMockEmbedding text = generateMockEmbedding text'
  /\ length (generateMockEmbedding text) = 384
  /\ generateMockEmbedding ""
     = map (fun i => Mul (Math_sin (Int (Z.of_nat i))) Lit_0_5) (seq 0 384).
Proof.
  intros ->. split; [reflexivity |]. split.
  - unfold generateMockEmbedding. now rewrite fold_insert_length, length_replicate.
  - rewrite generateMockEmbedding_entries. reflexivity.
Qed.

Lemma generateMockEmbedding_dimension_deterministic_witness :
  generateMockEmbedding "Alice" = generateMockEmbedding "Alice"
  /\ length (generateMockEmbedding "Alice") = 384.
Proof.
  destruct (generateMockEmbedding_dimension_deterministic "Alice" "Alice")
    as (Heq & Hlen & _).
  - reflexivity.
  - split; [exact Heq | exact Hlen].
Defined.

(** ** Document projection *)

Arguments generateMockEmbedding : simpl never.

(** C6: the projection takes the object-kind tag from the object's term
    type, fills language and datatype from the object when it is a literal
    (the empty string standing for a missing one) and leaves both empty
    otherwise, and calls the embedding function exactly four times: on the
    subject text, the predicate text, the object text and the text
    "subject predicate object"; the four vectors of the document are the
    results of these calls. *)
Theorem quadToOramaDoc_projection (quad : Quad) (id : string) :
  let doc := fst (quadToOramaDoc_traced quad id) in
  let calls := snd (quadToOramaDoc_traced quad id) in
  let s := value quad.(subject) in
  let p := value quad.(predicate) in
  let o := value quad.(object) in
  doc_objectType doc = termType quad.(object)
  /\ match quad.(object) with
     | Literal _ language datatype =>
         doc_objectLanguage doc = default "" language
         /\ doc_objectDatatype doc = default "" datatype
     | NamedNode _ | BlankNode _ | VariableTerm _ | DefaultGraph =>
         doc_objectLanguage doc = "" /\ doc_objectDatatype doc = ""
     end
  /\ calls = [s; p; o; s +:+ " " +:+ p +:+ " " +:+ o]
  /\ doc_subjectEmbedding doc = generateMockEmbedding s
  /\ doc_predicateEmbedding doc = generateMockEmbedding p
  /\ doc_objectEmbedding doc = generateMockEmbedding o
  /\ doc_combinedEmbedding doc = generateMockEmbedding (s +:+ " " +:+ p +:+ " " +:+ o)
  /\ quadToOramaDoc quad id = doc.
Proof.
  destruct quad as [s p o g]. unfold quadToOramaDoc, quadToOramaDoc_traced.
  destruct o; cbn; repeat split; reflexivity.
Qed.

(** ** The method monad *)

Lemma bind_returned {W A B} (c : M W A) (k : A -> M W B) (st st' : State W) (a : A) :
  c st = (Returned a, st') -> bind c k st = k a st'.
Proof. unfold bind. now intros ->. Qed.

(** ** Elementary mutations: [addQuad] and [removeQuad] *)

(** C9: addQuad and removeQuad each first delegate to the base store and
    then dispatch exactly one event of their kind carrying the quad of the
    call, whether or not the base store changed: adding a quad that is
    already there, or removing one that is not, dispatches all the same. *)
Theorem addQuad_removeQuad_dispatch_once {W} (quad : Quad) (st : State W) :
  let added := Store.addQuad quad st in
  let removed := Store.removeQuad quad st in
  SyncStore.addQuad quad st
    = (fst added, snd (dispatchEvent (mkEvent ADD_QUAD (ArgsQuad quad)) (snd added)))
  /\ dispatched (snd (SyncStore.addQuad quad st))
     = dispatched st ++ [mkEvent ADD_QUAD (ArgsQuad quad)]
  /\ fst added = Returned (bool_decide (quad ∉ quads st))
  /\ SyncStore.removeQuad quad st
     = (fst removed, snd (dispatchEvent (mkEvent REMOVE_QUAD (ArgsQuad quad)) (snd removed)))
  /\ dispatched (snd (SyncStore.removeQuad quad st))
     = dispatched st ++ [mkEvent REMOVE_QUAD (ArgsQuad quad)]
  /\ fst removed = Returned (bool_decide (quad ∈ quads st)).
Proof.
  cbv zeta. unfold SyncStore.addQuad, SyncStore.removeQuad, bind,
    Store.addQuad, Store.removeQuad, dispatchEvent, ret.
  destruct (decide (quad ∈ quads st)) as [Hin | Hnin]; simpl.
  - rewrite bool_decide_eq_false_2 by tauto.
    rewrite bool_decide_eq_true_2 by assumption. repeat split; reflexivity.
  - rewrite bool_decide_eq_true_2 by assumption.
    rewrite bool_decide_eq_false_2 by assumption. repeat split; reflexivity.
Qed.

Lemma filter_all {A} (P : A -> Prop) `{!forall x, Decision (P x)} (l : list A) :
  (forall x, x ∈ l -> P x) -> filter P l = l.
Proof.
  induction l as [|a l IH]; intros Hall; [reflexivity |].
  rewrite filter_cons_True by (apply Hall; left).
  f_equal. apply IH. intros x Hx. apply Hall. now right.
Qed.

Lemma filter_none {A} (P : A -> Prop) `{!forall x, Decision (P x)} (l : list A) :
  (forall x, x ∈ l -> ~ P x) -> filter P l = [].
Proof.
  induction l as [|a l IH]; intros Hall; [reflexivity |].
  rewrite filter_cons_False by (apply Hall; left).
  apply IH. intros x Hx. apply Hall. now right.
Qed.

Lemma state_eta {W} (st : State W) :
  mkState (quads st) (target st) (dispatched st) (world st) = st.
Proof. now destruct st. Qed.

Lemma removeQuad_state {W} (quad : Quad) (st : State W) :
  SyncStore.removeQuad quad st
  = (Returned (bool_decide (quad ∈ quads st)),
     mkState (filter (fun q => q <> quad) (quads st)) (target st)
             (dispatched st ++ [removeQuadEvent quad])
             (run_listeners (removeQuadEvent quad) (target st) (world st))).
Proof.
  unfold SyncStore.removeQuad, bind, Store.removeQuad, dispatchEvent, ret.
  destruct (decide (quad ∈ quads st)) as [Hin | Hnin]; simpl.
  - now rewrite bool_decide_eq_true_2.
  - rewrite bool_decide_eq_false_2 by assumption.
    rewrite filter_all; [reflexivity |]. intros x Hx ->. contradiction.
Qed.

Lemma addQuad_state {W} (quad : Quad) (st : State W) :
  SyncStore.addQuad quad st
  = (Returned (bool_decide (quad ∉ quads st)),
     mkState (if decide (quad ∈ quads st) then quads st else quads st ++ [quad])
             (target st)
             (dispatched st ++ [addQuadEvent quad])
             (run_listeners (addQuadEvent quad) (target st) (world st))).
Proof.
  unfold SyncStore.addQuad, bind, Store.addQuad, dispatchEvent, ret.
  destruct (decide (quad ∈ quads st)) as [Hin | Hnin]; simpl.
  - rewrite bool_decide_eq_false_2 by tauto. reflexivity.
  - now rewrite bool_decide_eq_true_2.
Qed.

(** What the base [remove] does to a stream when [removeQuad] is the
    overriding one: every quad of the stream leaves the store and has its
    own REMOVE_QUAD event. *)
Lemma for_of_removeQuad {W} (stream : list Quad) (st : State W) :
  for_of stream (fun quad => SyncStore.removeQuad quad ;;; ret tt) st
  = (Returned tt,
     mkState (filter (fun q => q ∉ stream) (quads st)) (target st)
             (dispatched st ++ map removeQuadEvent stream)
             (fold_left (fun w q => run_listeners (removeQuadEvent q) (target st) w)
                        stream (world st))).
Proof.
  revert st. induction stream as [|quad stream IH]; intros st; simpl.
  - unfold ret. rewrite app_nil_r, filter_all; [now rewrite state_eta |].
    intros x _. apply not_elem_of_nil.
  - unfold bind at 1. unfold bind at 1. rewrite removeQuad_state. unfold ret at 1.
    rewrite IH. simpl. rewrite <- app_assoc. simpl.
    rewrite list_filter_filter.
    do 3 f_equal. apply list_filter_iff. intros x.
    rewrite not_elem_of_cons. tauto.
Qed.

Lemma filter_not_in_filter {A} `{EqDecision A} (P : A -> Prop)
    `{!forall x, Decision (P x)} (l : list A) :
  filter (fun x => x ∉ filter P l) l = filter (fun x => ~ P x) l.
Proof.
  assert (Hgen : forall l0 : list A, (forall x, x ∈ l -> x ∈ l0) ->
            filter (fun x => x ∉ filter P l0) l = filter (fun x => ~ P x) l).
  { induction l as [|a l IH]; intros l0 Hsub; [reflexivity |].
    rewrite !filter_cons, IH by (intros x Hx; apply Hsub; now right).
    assert (Ha : a ∈ l0) by (apply Hsub; left).
    destruct (decide (P a)) as [HP | HP].
    - rewrite (decide_False (P := a ∉ filter P l0)), (decide_False (P := ~ P a));
        [reflexivity | tauto |].
      intros Hn. apply Hn. apply list_elem_of_filter. now split.
    - rewrite (decide_True (P := a ∉ filter P l0)), (decide_True (P := ~ P a));
        [reflexivity | assumption |].
      intros Hin. apply list_elem_of_filter in Hin. tauto. }
  now apply Hgen.
Qed.

(** ** Pattern-based removal: [removeMatches] *)

(** The quads a pattern selects. *)
Lemma getQuads_snapshot {W} (s p o g : OTerm) (st : State W) :
  Store.getQuads s p o g st
  = (Returned (filter (fun q => matches s p o g q = true) (quads st)), st).
Proof. reflexivity. Qed.

Lemma nonempty_length {A} (l : list A) : l <> [] -> (0 <? length l)%nat = true.
Proof. destruct l; [contradiction | reflexivity]. Qed.

(** The overridden [remove]: every quad of the stream leaves the store
    under its own REMOVE_QUAD event, then one REMOVE_QUADS event carries the
    stream. *)
Lemma remove_stream {W} (stream : EventEmitter) (st : State W) :
  let streamEvent := mkEvent REMOVE_QUADS (ArgsStream stream) in
  SyncStore.remove stream st
  = (Returned stream,
     mkState (filter (fun q => q ∉ stream) (quads st)) (target st)
       (dispatched st ++ map removeQuadEvent stream ++ [streamEvent])
       (run_listeners streamEvent (target st)
          (fold_left (fun w q => run_listeners (removeQuadEvent q) (target st) w)
                     stream (world st)))).
Proof.
  cbv zeta. unfold SyncStore.remove, Store.remove.
  erewrite bind_returned.
  2: { erewrite bind_returned by apply for_of_removeQuad. reflexivity. }
  unfold bind, dispatchEvent, ret. cbn [quads target dispatched world].
  now rewrite <- app_assoc.
Qed.

(** With at least one match the call goes through: the overridden [remove]
    takes the matching quads out, and only then is the event with the
    snapshot dispatched. *)
Lemma removeMatches_some_matches {W} (s p o g : OTerm) (st : State W) :
  let snapshot := filter (fun q => matches s p o g q = true) (quads st) in
  let streamEvent := mkEvent REMOVE_QUADS (ArgsStream snapshot) in
  let snapshotEvent := mkEvent REMOVE_QUADS (QuadArray snapshot) in
  snapshot <> [] ->
  SyncStore.removeMatches s p o g st
  = (Returned snapshot,
     mkState (filter (fun q => ~ matches s p o g q = true) (quads st)) (target st)
       (dispatched st ++ map removeQuadEvent snapshot ++ [streamEvent; snapshotEvent])
       (run_listeners snapshotEvent (target st)
          (run_listeners streamEvent (target st)
             (fold_left (fun w q => run_listeners (removeQuadEvent q) (target st) w)
                        snapshot (world st))))).
Proof.
  cbv zeta. intros Hne.
  unfold SyncStore.removeMatches.
  rewrite (bind_returned _ _ _ _ _ (getQuads_snapshot s p o g st)).
  rewrite (nonempty_length _ Hne). cbn [negb].
  erewrite bind_returned.
  2: { unfold Store.removeMatches.
       rewrite (bind_returned _ _ _ _ _ (getQuads_snapshot s p o g st)).
       apply remove_stream. }
  unfold bind, dispatchEvent, ret. cbn [quads target dispatched world].
  rewrite <- !app_assoc. cbn [app]. do 2 f_equal.
  apply (filter_not_in_filter (fun q => matches s p o g q = true)).
Qed.

(** The revision without the throw and without an overridden [remove]:
    with at least one match, the matching quads leave the store and
    exactly one REMOVE_MATCHES event carries the snapshot. *)
Lemma removeMatches_rev_some_matches {W} (s p o g : OTerm) (st : State W) :
  let snapshot := filter (fun q => matches s p o g q = true) (quads st) in
  let snapshotEvent := mkEvent REMOVE_MATCHES (QuadArray snapshot) in
  snapshot <> [] ->
  SyncStoreRev.removeMatches s p o g st
  = (Returned snapshot,
     mkState (filter (fun q => ~ matches s p o g q = true) (quads st)) (target st)
       (dispatched st ++ map removeQuadEvent snapshot ++ [snapshotEvent])
       (run_listeners snapshotEvent (target st)
          (fold_left (fun w q => run_listeners (removeQuadEvent q) (target st) w)
                     snapshot (world st)))).
Proof.
  cbv zeta. intros Hne.
  unfold SyncStoreRev.removeMatches.
  rewrite (bind_returned _ _ _ _ _ (getQuads_snapshot s p o g st)).
  erewrite bind_returned.
  2: { unfold Store.removeMatches.
       rewrite (bind_returned _ _ _ _ _ (getQuads_snapshot s p o g st)).
       unfold Store.remove.
       erewrite bind_returned by apply for_of_removeQuad. reflexivity. }
  rewrite (nonempty_length _ Hne).
  unfold bind, dispatchEvent, ret. cbn [quads target dispatched world].
  rewrite <- !app_assoc. do 2 f_equal.
  apply (filter_not_in_filter (fun q => matches s p o g q = true)).
Qed.

Lemma removeMatches_zero_matches_pair {W} (s p o g : OTerm) (st : State W) :
  filter (fun q => matches s p o g q = true) (quads st) = [] ->
  SyncStore.removeMatches s p o g st = (Threw (Error "Invalid quads"), st)
  /\ SyncStoreRev.removeMatches s p o g st = (Returned [], st).
Proof.
  intros Hnone. split.
  - unfold SyncStore.removeMatches.
    rewrite (bind_returned _ _ _ _ _ (getQuads_snapshot s p o g st)), Hnone.
    reflexivity.
  - unfold SyncStoreRev.removeMatches.
    rewrite (bind_returned _ _ _ _ _ (getQuads_snapshot s p o g st)), Hnone.
    unfold Store.removeMatches, bind.
    rewrite getQuads_snapshot, Hnone. reflexivity.
Qed.

(** C2: when no quad matches the pattern, removeMatches of sync-store.ts
    lines 71-91 throws Error("Invalid quads") before touching the store,
    whereas the revision at lines 220-237 returns normally, with the store
    unchanged and no event dispatched. *)
Theorem removeMatches_zero_matches {W} (s p o g : OTerm) (st : State W) :
  filter (fun q => matches s p o g q = true) (quads st) = [] ->
  SyncStore.removeMatches s p o g st = (Threw (Error "Invalid quads"), st)
  /\ SyncStoreRev.removeMatches s p o g st = (Returned [], st)
  /\ dispatched (snd (SyncStore.removeMatches s p o g st)) = dispatched st
  /\ quads (snd (SyncStore.removeMatches s p o g st)) = quads st.
Proof.
  intros Hnone.
  destruct (removeMatches_zero_matches_pair s p o g st Hnone) as [H1 H2].
  rewrite H1, H2. repeat split.
Qed.

Lemma removeMatches_zero_matches_witness :
  SyncStore.removeMatches (Some (NamedNode "http://example.org/nobody")) None None None
    OramaStore.new
  = (Threw (Error "Invalid quads"), OramaStore.new).
Proof.
  apply (removeMatches_zero_matches
           (Some (NamedNode "http://example.org/nobody")) None None None OramaStore.new).
  reflexivity.
Defined.

(** ** Graph-scoped deletion: [deleteGraph] *)

(** The two projections of an event log. *)
Lemma elementaryEvents_app (evs evs' : list CustomEvent) :
  Direct.elementaryEvents (evs ++ evs')
  = Direct.elementaryEvents evs ++ Direct.elementaryEvents evs'.
Proof. apply filter_app. Qed.

Lemma batchEvents_app (evs evs' : list CustomEvent) :
  Direct.batchEvents (evs ++ evs') = Direct.batchEvents evs ++ Direct.batchEvents evs'.
Proof. apply filter_app. Qed.

Lemma elementaryEvents_removals (l : list Quad) :
  Direct.elementaryEvents (map removeQuadEvent l) = map removeQuadEvent l.
Proof.
  apply filter_all. intros ev Hev.
  apply list_elem_of_fmap in Hev as (q & -> & _). now right.
Qed.

Lemma batchEvents_removals (l : list Quad) :
  Direct.batchEvents (map removeQuadEvent l) = [].
Proof.
  apply filter_none. intros ev Hev [_ H].
  apply list_elem_of_fmap in Hev as (q & -> & _). now apply H.
Qed.

Lemma removal_events (l : list Quad) (batch : list CustomEvent) :
  Direct.batchEvents batch = batch ->
  Direct.elementaryEvents (map removeQuadEvent l ++ batch) = map removeQuadEvent l
  /\ Direct.batchEvents (map removeQuadEvent l ++ batch) = batch.
Proof.
  intros Hbatch. rewrite elementaryEvents_app, batchEvents_app.
  rewrite elementaryEvents_removals, batchEvents_removals, Hbatch. split; [| reflexivity].
  rewrite <- (app_nil_r (map removeQuadEvent l)) at 2. f_equal.
  rewrite <- Hbatch. apply filter_none. intros ev Hev.
  apply list_elem_of_filter in Hev as [[H1 H2] _]. tauto.
Qed.


Lemma matches_graph (g : Term) (quad : Quad) :
  matches None None None (Some g) quad = true <-> quad.(graph) = g.
Proof.
  unfold matches, matches_term. simpl.
  rewrite bool_decide_eq_true. split; congruence.
Qed.

(** The base [deleteGraph] goes through the overriding [removeMatches]:
    the call is that pattern-based removal, then the event of its own. *)
Lemma deleteGraph_through_removeMatches {W} (g : Term) (st : State W) :
  let snapshot := filter (fun q => matches None None None (Some g) q = true) (quads st) in
  SyncStore.deleteGraph g st
  = match SyncStore.removeMatches None None None (Some g) st with
    | (Returned result, st1) =>
        (Returned result,
         if (0 <? length snapshot)%nat
         then snd (dispatchEvent (mkEvent REMOVE_QUADS (QuadArray snapshot)) st1)
         else st1)
    | (Threw e, st1) => (Threw e, st1)
    end.
Proof.
  cbv zeta. unfold SyncStore.deleteGraph.
  rewrite (bind_returned _ _ _ _ _ (getQuads_snapshot None None None (Some g) st)).
  unfold Store.deleteGraph, bind.
  destruct (SyncStore.removeMatches None None None (Some g) st) as [[result | e] st1];
    [| reflexivity].
  now destruct (0 <? length _)%nat.
Qed.

(** On a graph without quads the call therefore ends in the throw of
    [removeMatches]. *)
Lemma deleteGraph_empty_graph {W} (g : Term) (st : State W) :
  filter (fun q => matches None None None (Some g) q = true) (quads st) = [] ->
  SyncStore.deleteGraph g st = (Threw (Error "Invalid quads"), st)
  /\ SyncStoreRev.deleteGraph g st = (Returned [], st).
Proof.
  intros Hnone. split.
  - rewrite deleteGraph_through_removeMatches.
    now rewrite (proj1 (removeMatches_zero_matches_pair None None None (Some g) st Hnone)).
  - unfold SyncStoreRev.deleteGraph.
    rewrite (bind_returned _ _ _ _ _ (getQuads_snapshot None None None (Some g) st)).
    unfold Store.deleteGraph.
    rewrite (bind_returned _ _ _ _ _
               (proj2 (removeMatches_zero_matches_pair None None None (Some g) st Hnone))).
    now rewrite Hnone.
Qed.

(** C5, as stated, fails: deleteGraph of lines 93-115 on a graph that
    holds one quad dispatches three batch events, not one. *)
Lemma deleteGraph_three_batch_events :
  let r := SyncStore.deleteGraph (NamedNode "http://example.org/graph1") two_graph_store in
  fst r = Returned [person2_name_Bob]
  /\ Direct.batchEvents (dispatched (snd r))
     = [mkEvent REMOVE_QUADS (ArgsStream [person2_name_Bob]);
        mkEvent REMOVE_QUADS (QuadArray [person2_name_Bob]);
        mkEvent REMOVE_QUADS (QuadArray [person2_name_Bob])].
Proof. cbv zeta. split; vm_compute; reflexivity. Qed.

(** C5 (amended): deleteGraph(graph) of lines 93-115 has the result and
    the effect on the store of removeMatches(null, null, null, graph).  Its
    snapshot is the quads of the graph in the store as the call finds it.
    If the graph holds no quad the call throws Error("Invalid quads") and
    changes nothing.  Otherwise it returns the snapshot and dispatches
    three batch events, all REMOVE_QUADS: the stream from the overridden
    remove, then the snapshot from the overridden removeMatches, then the
    snapshot from deleteGraph itself; the payloads are the quads found
    before the removal, which a query after the removal no longer returns.
    The quads of the graph, and no others, leave the store, each under its
    own REMOVE_QUAD event.  The store is the one reached when the stream
    has been read to its end; the two kinds of event are given separately,
    nothing is said on how they interleave. *)
Theorem deleteGraph_snapshot_and_events {W} (g : Term) (st : State W) :
  let snapshot := filter (fun q => matches None None None (Some g) q = true) (quads st) in
  let r := SyncStore.deleteGraph g st in
  let r' := SyncStore.removeMatches None None None (Some g) st in
  snapshot = filter (fun q => q.(graph) = g) (quads st)
  /\ fst r = fst r' /\ quads (snd r) = quads (snd r')
  /\ match snapshot with
     | [] => r = (Threw (Error "Invalid quads"), st)
     | _ :: _ =>
         fst r = Returned snapshot
         /\ quads (snd r) = filter (fun q => q.(graph) <> g) (quads st)
         /\ filter (fun q => matches None None None (Some g) q = true) (quads (snd r)) = []
         /\ exists evs, dispatched (snd r) = dispatched st ++ evs
              /\ Direct.elementaryEvents evs = map removeQuadEvent snapshot
              /\ Direct.batchEvents evs
                 = [mkEvent REMOVE_QUADS (ArgsStream snapshot);
                    mkEvent REMOVE_QUADS (QuadArray snapshot);
                    mkEvent REMOVE_QUADS (QuadArray snapshot)]
     end.
Proof.
  cbv zeta. split; [apply list_filter_iff; intros q; apply matches_graph |].
  rewrite deleteGraph_through_removeMatches.
  destruct (filter (fun q => matches None None None (Some g) q = true) (quads st))
    as [|q0 snapshot] eqn:Hsnapshot.
  - rewrite (proj1 (removeMatches_zero_matches_pair None None None (Some g) st Hsnapshot)).
    repeat split.
  - assert (Hne : filter (fun q => matches None None None (Some g) q = true) (quads st) <> [])
      by now rewrite Hsnapshot.
    rewrite (removeMatches_some_matches None None None (Some g) st Hne), Hsnapshot.
    cbn [fst snd length Nat.ltb Nat.leb quads dispatched dispatchEvent].
    do 3 (split; [reflexivity |]). split; [| split].
    + apply list_filter_iff. intros q. now rewrite matches_graph.
    + apply filter_none. intros q Hq. apply list_elem_of_filter in Hq. tauto.
    + eexists. rewrite <- !app_assoc. split; [reflexivity |]. now apply removal_events.
Qed.

Lemma deleteGraph_snapshot_and_events_witness :
  (exists evs,
     dispatched (snd (SyncStore.deleteGraph (NamedNode "http://example.org/graph1")
                        two_graph_store))
     = dispatched two_graph_store ++ evs
     /\ Direct.elementaryEvents evs = [removeQuadEvent person2_name_Bob]
     /\ Direct.batchEvents evs
        = [mkEvent REMOVE_QUADS (ArgsStream [person2_name_Bob]);
           mkEvent REMOVE_QUADS (QuadArray [person2_name_Bob]);
           mkEvent REMOVE_QUADS (QuadArray [person2_name_Bob])])
  /\ SyncStore.deleteGraph (NamedNode "http://example.org/elsewhere") two_graph_store
     = (Threw (Error "Invalid quads"), two_graph_store).
Proof.
  split.
  - destruct (deleteGraph_snapshot_and_events (NamedNode "http://example.org/graph1")
                two_graph_store) as (_ & _ & _ & H).
    destruct H as (_ & _ & _ & evs & Hlog & Hel & Hbatch).
    exists evs. split; [exact Hlog | split; [exact Hel | exact Hbatch]].
  - destruct (deleteGraph_snapshot_and_events (NamedNode "http://example.org/elsewhere")
                two_graph_store) as (_ & _ & _ & H).
    exact H.
Defined.

(** ** The coordinator: [OramaStore] *)

Lemma for_of_addQuad {W} (qs : list Quad) (st : State W) :
  for_of qs (fun quad => SyncStore.addQuad quad ;;; ret tt) st
  = (Returned tt,
     mkState (fold_left (fun l q => if decide (q ∈ l) then l else l ++ [q])
                        qs (quads st))
             (target st)
             (dispatched st ++ map addQuadEvent qs)
             (fold_left (fun w q => run_listeners (addQuadEvent q) (target st) w)
                        qs (world st))).
Proof.
  revert st. induction qs as [|quad qs IH]; intros st; simpl.
  - unfold ret. now rewrite app_nil_r, state_eta.
  - unfold bind at 1. unfold bind at 1. rewrite addQuad_state. unfold ret at 1.
    rewrite IH. simpl. now rewrite <- app_assoc.
Qed.

Lemma doc_id_quadToOramaDoc (quad : Quad) (id : string) :
  doc_id (quadToOramaDoc quad id) = id.
Proof.
  unfold quadToOramaDoc, quadToOramaDoc_traced.
  destruct (decide (termType (object quad) = "Literal")); reflexivity.
Qed.

(** The two listeners that [setupEventListeners] installs. *)
Lemma listeners_on_add (quad : Quad) (db : Orama.DB) :
  run_listeners (addQuadEvent quad) (target OramaStore.new) db
  = Orama.insert db (quadToOramaDoc quad (generateQuadId quad)).
Proof. reflexivity. Qed.

Lemma listeners_on_remove (quad : Quad) (db : Orama.DB) :
  run_listeners (removeQuadEvent quad) (target OramaStore.new) db
  = Orama.remove db (generateQuadId quad).
Proof. reflexivity. Qed.

(** C10: addQuads and removeQuads of OramaStore run the single-quad method
    of the store once per quad, in list order: a batch of N quads dispatches
    exactly the N elementary events of its quads and nothing else (no
    ADD_QUADS or REMOVE_QUADS event), and the index receives one insert, or
    one remove, per quad in that order. *)
Theorem addQuads_removeQuads_per_quad (quads : list Quad) (self : OramaStore.t) :
  target self = target OramaStore.new ->
  let added := OramaStore.addQuads quads self in
  let removed := OramaStore.removeQuads quads self in
  fst added = Returned tt
  /\ dispatched (snd added) = dispatched self ++ map addQuadEvent quads
  /\ world (snd added)
     = fold_left (fun db quad => Orama.insert db (quadToOramaDoc quad (generateQuadId quad)))
                 quads (world self)
  /\ fst removed = Returned tt
  /\ dispatched (snd removed) = dispatched self ++ map removeQuadEvent quads
  /\ world (snd removed)
     = fold_left (fun db quad => Orama.remove db (generateQuadId quad)) quads (world self)
  /\ added = for_of quads (fun quad => OramaStore.addQuad quad) self
  /\ removed = for_of quads (fun quad => OramaStore.removeQuad quad) self.
Proof.
  intros Htarget. cbv zeta.
  assert (Hloops :
    OramaStore.addQuads quads self = for_of quads (fun quad => OramaStore.addQuad quad) self
    /\ OramaStore.removeQuads quads self
       = for_of quads (fun quad => OramaStore.removeQuad quad) self)
    by (split; reflexivity).
  unfold OramaStore.addQuads, OramaStore.removeQuads in *.
  destruct Hloops as [<- <-].
  rewrite for_of_addQuad, for_of_removeQuad. cbn [fst snd dispatched world].
  rewrite Htarget. repeat split.
Qed.

Lemma addQuads_removeQuads_per_quad_witness :
  dispatched (snd (OramaStore.addQuads [person1_name_Alice; person1_age_25] OramaStore.new))
  = [addQuadEvent person1_name_Alice; addQuadEvent person1_age_25].
Proof.
  destruct (addQuads_removeQuads_per_quad
              [person1_name_Alice; person1_age_25] OramaStore.new)
    as (_ & Hev & _).
  - reflexivity.
  - exact Hev.
Defined.

Lemma OramaStore_addQuad_state (quad : Quad) (self : OramaStore.t) :
  target self = target OramaStore.new ->
  OramaStore.addQuad quad self
  = (Returned tt,
     mkState (if decide (quad ∈ quads self) then quads self else quads self ++ [quad])
             (target self)
             (dispatched self ++ [addQuadEvent quad])
             (Orama.insert (world self) (quadToOramaDoc quad (generateQuadId quad)))).
Proof.
  intros Htarget. unfold OramaStore.addQuad.
  erewrite bind_returned by apply addQuad_state.
  unfold ret. now rewrite Htarget.
Qed.

Lemma OramaStore_removeQuad_state (quad : Quad) (self : OramaStore.t) :
  target self = target OramaStore.new ->
  OramaStore.removeQuad quad self
  = (Returned tt,
     mkState (filter (fun q => q <> quad) (quads self))
             (target self)
             (dispatched self ++ [removeQuadEvent quad])
             (Orama.remove (world self) (generateQuadId quad))).
Proof.
  intros Htarget. unfold OramaStore.removeQuad.
  erewrite bind_returned by apply removeQuad_state.
  unfold ret. now rewrite Htarget.
Qed.

(** C4: adding the same fact twice does not fail, leaves the document count
    of the index (and the size of the store) as it was after the first
    addition, and the document found under the fact's key is the
    projection of the fact that the second addition made. *)
Theorem addQuad_twice_idempotent (F : Quad) (self : OramaStore.t) :
  target self = target OramaStore.new ->
  let first := OramaStore.addQuad F self in
  let second := OramaStore.addQuad F (snd first) in
  fst first = Returned tt
  /\ fst second = Returned tt
  /\ OramaStore.getDocumentCount (snd second) = OramaStore.getDocumentCount (snd first)
  /\ OramaStore.getSize (snd second) = OramaStore.getSize (snd first)
  /\ OramaStore.getDocumentById (snd second) (generateQuadId F)
     = Some (quadToOramaDoc F (generateQuadId F))
  /\ dispatched (snd second) = dispatched self ++ [addQuadEvent F; addQuadEvent F].
Proof.
  intros Htarget. cbv zeta.
  rewrite (OramaStore_addQuad_state F self Htarget). cbn [fst snd].
  rewrite OramaStore_addQuad_state by exact Htarget. cbn [fst snd quads].
  unfold OramaStore.getDocumentCount, OramaStore.getSize, OramaStore.getDocumentById,
    Store.size, Orama.count, Orama.getByID, Orama.insert.
  cbn [world quads dispatched]. rewrite doc_id_quadToOramaDoc.
  repeat split.
  - now rewrite insert_insert_eq.
  - destruct (decide (F ∈ quads self)) as [Hin | Hnin].
    + now rewrite decide_True.
    + rewrite decide_True; [reflexivity |]. apply elem_of_app. right. left.
  - apply lookup_insert_eq.
  - now rewrite <- app_assoc.
Qed.

Lemma addQuad_twice_idempotent_witness :
  OramaStore.getDocumentCount
    (snd (OramaStore.addQuad person1_name_Alice
            (snd (OramaStore.addQuad person1_name_Alice OramaStore.new))))
  = OramaStore.getDocumentCount (snd (OramaStore.addQuad person1_name_Alice OramaStore.new)).
Proof.
  destruct (addQuad_twice_idempotent person1_name_Alice OramaStore.new)
    as (_ & _ & Hcount & _).
  - reflexivity.
  - exact Hcount.
Defined.

(** ** The store and the index stay in step *)

Lemma length_filter_ne (q : Quad) (l : list Quad) :
  NoDup l -> q ∈ l -> length (filter (fun x => x <> q) l) = pred (length l).
Proof.
  induction l as [|a l IH]; intros Hnd Hin; [now apply not_elem_of_nil in Hin |].
  apply NoDup_cons in Hnd as [Ha Hnd].
  destruct (decide (a = q)) as [-> | Hne].
  - rewrite filter_cons_False by tauto.
    rewrite filter_all; [reflexivity |]. intros x Hx ->. contradiction.
  - rewrite filter_cons_True by assumption.
    apply elem_of_cons in Hin as [-> | Hin]; [contradiction |].
    cbn [length]. rewrite IH by assumption.
    destruct l; [now apply not_elem_of_nil in Hin | reflexivity].
Qed.

Lemma collision_free_injective_on (U : list Quad) :
  OramaStore.collision_free U = true -> OramaStore.injective_on U.
Proof.
  unfold OramaStore.collision_free, OramaStore.injective_on.
  intros Hfree a b Ha Hb Hkey.
  rewrite forallb_forall in Hfree.
  apply list_elem_of_In in Ha, Hb.
  specialize (Hfree a Ha). rewrite forallb_forall in Hfree.
  specialize (Hfree b Hb).
  rewrite bool_decide_eq_true_2 in Hfree by assumption.
  now apply bool_decide_eq_true in Hfree.
Qed.

Lemma mirrors_new (U : list Quad) : OramaStore.mirrors U OramaStore.new.
Proof.
  unfold OramaStore.mirrors. cbn. repeat split.
  - constructor.
  - intros q Hq. now apply not_elem_of_nil in Hq.
  - intros [d Hd]. unfold Orama.create in Hd. now rewrite lookup_empty in Hd.
  - intros (q & Hq & _). now apply not_elem_of_nil in Hq.
Qed.

Lemma mirrors_addQuad (U : list Quad) (quad : Quad) (self : OramaStore.t) :
  OramaStore.injective_on U -> quad ∈ U -> OramaStore.mirrors U self ->
  fst (OramaStore.addQuad quad self) = Returned tt
  /\ OramaStore.mirrors U (snd (OramaStore.addQuad quad self)).
Proof.
  intros Hinj HU (Htarget & Hnd & Hsub & Hdom & Hsize).
  rewrite (OramaStore_addQuad_state quad self Htarget). cbn [fst snd].
  split; [reflexivity |].
  unfold OramaStore.mirrors, Orama.insert. cbn [quads target world].
  rewrite doc_id_quadToOramaDoc.
  split; [exact Htarget |].
  destruct (decide (quad ∈ quads self)) as [Hin | Hnin].
  - split; [exact Hnd |]. split; [exact Hsub |]. split.
    + intros k. rewrite lookup_insert_is_Some, Hdom. split.
      * intros [<- | [_ H]]; [now exists quad | exact H].
      * intros H. destruct (decide (generateQuadId quad = k)); [now left | now right].
    + rewrite map_size_insert_Some; [exact Hsize |]. apply Hdom. now exists quad.
  - assert (Hfresh : world self !! generateQuadId quad = None).
    { apply eq_None_not_Some. intros Hsome. apply Hdom in Hsome as (q & Hq & Hkey).
      apply Hnin. rewrite <- (Hinj q quad); auto. }
    split; [| split; [| split]].
    + apply NoDup_app. split; [exact Hnd |]. split; [| apply NoDup_singleton].
      intros x Hx Hx'. apply list_elem_of_singleton in Hx'. now subst.
    + intros q Hq. apply elem_of_app in Hq as [Hq | Hq]; [now apply Hsub |].
      apply list_elem_of_singleton in Hq. now subst.
    + intros k. rewrite lookup_insert_is_Some, Hdom. split.
      * intros [<- | [_ (q & Hq & Hkey)]].
        -- exists quad. split; [| reflexivity]. apply elem_of_app. right. left.
        -- exists q. split; [| exact Hkey]. apply elem_of_app. now left.
      * intros (q & Hq & Hkey). apply elem_of_app in Hq as [Hq | Hq].
        -- destruct (decide (generateQuadId quad = k)); [now left |].
           right. split; [assumption |]. now exists q.
        -- apply list_elem_of_singleton in Hq. subst. now left.
    + rewrite map_size_insert_None by exact Hfresh.
      rewrite List.length_app. cbn [length]. lia.
Qed.

Lemma mirrors_removeQuad (U : list Quad) (quad : Quad) (self : OramaStore.t) :
  OramaStore.injective_on U -> quad ∈ U -> OramaStore.mirrors U self ->
  fst (OramaStore.removeQuad quad self) = Returned tt
  /\ OramaStore.mirrors U (snd (OramaStore.removeQuad quad self)).
Proof.
  intros Hinj HU (Htarget & Hnd & Hsub & Hdom & Hsize).
  rewrite (OramaStore_removeQuad_state quad self Htarget). cbn [fst snd].
  split; [reflexivity |].
  unfold OramaStore.mirrors, Orama.remove. cbn [quads target world].
  split; [exact Htarget |].
  split; [now apply NoDup_filter |].
  split; [intros q Hq; apply list_elem_of_filter in Hq; now apply Hsub |].
  split.
  - intros k. rewrite lookup_delete_is_Some, Hdom. split.
    + intros [Hne (q & Hq & Hkey)]. exists q. split; [| exact Hkey].
      apply list_elem_of_filter. split; [| exact Hq]. intros ->. contradiction.
    + intros (q & Hq & Hkey). apply list_elem_of_filter in Hq as [Hne Hq]. split.
      * intros Heq. apply Hne. apply Hinj; auto. congruence.
      * now exists q.
  - destruct (decide (quad ∈ quads self)) as [Hin | Hnin].
    + rewrite map_size_delete_Some by (apply Hdom; now exists quad).
      rewrite length_filter_ne by assumption. now rewrite Hsize.
    + rewrite map_size_delete_None.
      * rewrite filter_all; [exact Hsize |]. intros x Hx ->. contradiction.
      * apply eq_None_not_Some. intros Hsome. apply Hdom in Hsome as (q & Hq & Hkey).
        apply Hnin. rewrite <- (Hinj q quad); auto.
Qed.

Lemma mirrors_for_of (U : list Quad) (body : Quad -> M Orama.DB unit)
    (qs : list Quad) (self : OramaStore.t) :
  (forall q st, q ∈ U -> OramaStore.mirrors U st ->
     fst (body q st) = Returned tt /\ OramaStore.mirrors U (snd (body q st))) ->
  (forall q, q ∈ qs -> q ∈ U) -> OramaStore.mirrors U self ->
  fst (for_of qs body self) = Returned tt
  /\ OramaStore.mirrors U (snd (for_of qs body self)).
Proof.
  intros Hbody. revert self. induction qs as [|q qs IH]; intros self HU Hm.
  - split; [reflexivity | exact Hm].
  - destruct (Hbody q self) as [Hret Hm']; [apply HU; left | exact Hm |].
    cbn [for_of]. unfold bind at 1 2.
    destruct (body q self) as [o st1]. cbn [fst snd] in Hret, Hm'. subst o.
    apply IH; [| exact Hm']. intros x Hx. apply HU. now right.
Qed.

Lemma mirrors_call (U : list Quad) (m : OramaStore.Mutation) (self : OramaStore.t) :
  OramaStore.injective_on U -> (forall q, q ∈ OramaStore.mentioned m -> q ∈ U) ->
  OramaStore.mirrors U self ->
  fst (OramaStore.call m self) = Returned tt
  /\ OramaStore.mirrors U (snd (OramaStore.call m self)).
Proof.
  intros Hinj HU Hm. destruct m as [q | q | qs | qs]; cbn [OramaStore.call OramaStore.mentioned] in *.
  - apply mirrors_addQuad; auto. apply HU. left.
  - apply mirrors_removeQuad; auto. apply HU. left.
  - change (OramaStore.addQuads qs) with (for_of qs OramaStore.addQuad).
    apply mirrors_for_of; auto. intros; now apply mirrors_addQuad.
  - change (OramaStore.removeQuads qs) with (for_of qs OramaStore.removeQuad).
    apply mirrors_for_of; auto. intros; now apply mirrors_removeQuad.
Qed.

Lemma mirrors_in_sync (U : list Quad) (self : OramaStore.t) :
  OramaStore.mirrors U self ->
  OramaStore.getDocumentCount self = OramaStore.getSize self
  /\ OramaStore.isInSync self = true.
Proof.
  intros (_ & _ & _ & _ & Hsize).
  unfold OramaStore.isInSync, OramaStore.getDocumentCount, OramaStore.getSize,
    Orama.count, Store.size.
  split; [exact Hsize |]. now apply bool_decide_eq_true.
Qed.

Lemma mirrors_observe (U : list Quad) (calls : list OramaStore.Mutation)
    (self : OramaStore.t) :
  OramaStore.injective_on U ->
  (forall m q, m ∈ calls -> q ∈ OramaStore.mentioned m -> q ∈ U) ->
  OramaStore.mirrors U self ->
  Forall (fun r => fst r = Returned tt
                   /\ OramaStore.getDocumentCount (snd r) = OramaStore.getSize (snd r)
                   /\ OramaStore.isInSync (snd r) = true)
         (OramaStore.observe calls self).
Proof.
  intros Hinj. revert self. induction calls as [|m calls IH]; intros self HU Hm.
  - constructor.
  - cbn [OramaStore.observe].
    destruct (mirrors_call U m self) as [Hret Hm']; auto.
    { intros q Hq. apply (HU m); [left | exact Hq]. }
    constructor.
    + split; [exact Hret |]. now apply (mirrors_in_sync U).
    + apply IH; [| exact Hm']. intros m' q Hm'' Hq. apply (HU m'); [now right | exact Hq].
Qed.

(** C1, as stated, fails: after adding two distinct facts that share a key
    the store holds two quads and the index one document, and isInSync()
    answers false. *)
Lemma in_sync_fails_on_key_collision :
  map (fun r => (OramaStore.getSize (snd r),
                 OramaStore.getDocumentCount (snd r),
                 OramaStore.isInSync (snd r)))
      (OramaStore.observe
         [OramaStore.AddQuad quad_bar_in_object; OramaStore.AddQuad quad_bar_in_subject]
         OramaStore.new)
  = [(1, 1, true); (2, 1, false)].
Proof. vm_compute. reflexivity. Qed.

(** C1 (amended): for every sequence of addQuad, removeQuad, addQuads and
    removeQuads calls on a fresh OramaStore in which no two distinct quads
    share a key, every call returns normally, and when it returns the
    number of documents in the index equals the number of quads in the
    store and isInSync() answers true. *)
Theorem in_sync_after_each_call (calls : list OramaStore.Mutation) :
  OramaStore.collision_free (concat (map OramaStore.mentioned calls)) = true ->
  Forall (fun r => fst r = Returned tt
                   /\ OramaStore.getDocumentCount (snd r) = OramaStore.getSize (snd r)
                   /\ OramaStore.isInSync (snd r) = true)
         (OramaStore.observe calls OramaStore.new).
Proof.
  intros Hfree.
  apply (mirrors_observe (concat (map OramaStore.mentioned calls))).
  - now apply collision_free_injective_on.
  - intros m q Hm Hq. apply list_elem_of_In, in_concat.
    exists (OramaStore.mentioned m). split.
    + apply in_map. now apply list_elem_of_In.
    + now apply list_elem_of_In.
  - apply mirrors_new.
Qed.

Lemma in_sync_after_each_call_witness :
  Forall (fun r => fst r = Returned tt
                   /\ OramaStore.getDocumentCount (snd r) = OramaStore.getSize (snd r)
                   /\ OramaStore.isInSync (snd r) = true)
         (OramaStore.observe sample_calls OramaStore.new).
Proof.
  apply (in_sync_after_each_call sample_calls).
  vm_compute. reflexivity.
Defined.

(** ** Vector search *)

Lemma out_of_range_check (similarity : Q) :
  ~ (0 <= similarity <= 1)%Q ->
  negb (Qle_bool 0 similarity && Qle_bool similarity 1) = true.
Proof.
  intros Hout. apply negb_true_iff, not_true_is_false. intros Hin.
  apply andb_true_iff in Hin as [H0 H1].
  apply Hout. split; now apply Qle_bool_iff.
Qed.

(** C7: a vector search whose minSimilarity lies outside [0,1] fails with a
    ValidationError, whatever the other arguments are: vectorSearch hands
    the value to the index search as it is (it neither clamps nor replaces
    it), the search rejects it, and the store object, with its quads and
    its index, is the same after the failed call as before. *)
Theorem vectorSearch_rejects_out_of_range
    (cosineSimilarity : list number -> list number -> Q)
    (query : string) (vectorProperty : option string) (similarity : Q)
    (limit : option Z) (self : OramaStore.t) :
  ~ (0 <= similarity <= 1)%Q ->
  OramaStore.vectorSearch cosineSimilarity query vectorProperty (Some similarity) limit self
  = (Threw ValidationError, self)
  /\ Orama.search cosineSimilarity (world self)
       (Orama.mkParams (generateMockEmbedding query)
          (default "combinedEmbedding" vectorProperty) similarity (default 10%Z limit))
     = inl ValidationError.
Proof.
  intros Hout.
  assert (Hsearch :
    Orama.search cosineSimilarity (world self)
      (Orama.mkParams (generateMockEmbedding query)
         (default "combinedEmbedding" vectorProperty) similarity (default 10%Z limit))
    = inl ValidationError).
  { unfold Orama.search. cbn [Orama.vector_property Orama.similarity].
    destruct (negb (Orama.knownVectorField _)); [reflexivity |].
    now rewrite (out_of_range_check similarity Hout). }
  split; [| exact Hsearch].
  unfold OramaStore.vectorSearch.
  change (default (8 # 10)%Q (Some similarity)) with similarity.
  cbv zeta. now rewrite Hsearch.
Qed.

Lemma vectorSearch_rejects_out_of_range_witness :
  OramaStore.vectorSearch (fun _ _ => 1%Q) "test" (Some "combinedEmbedding")
    (Some (2 # 1)%Q) (Some 5%Z)
    (snd (OramaStore.addQuad person1_name_Alice OramaStore.new))
  = (Threw ValidationError, snd (OramaStore.addQuad person1_name_Alice OramaStore.new)).
Proof.
  apply (vectorSearch_rejects_out_of_range (fun _ _ => 1%Q) "test"
           (Some "combinedEmbedding") (2 # 1)%Q (Some 5%Z)).
  intros [_ H]. unfold Qle in H. simpl in H. lia.
Defined.

(** * Further properties of the code *)

(** ** The text hash *)

Lemma ToInt32_range (z : Z) : (- 2 ^ 31 <= ToInt32 z < 2 ^ 31)%Z.
Proof.
  unfold ToInt32.
  pose proof (Z.mod_pos_bound (z + 2 ^ 31) (2 ^ 32) ltac:(lia)). lia.
Qed.

Lemma ToInt32_mod (z : Z) : (ToInt32 z mod 2 ^ 32 = z mod 2 ^ 32)%Z.
Proof.
  unfold ToInt32. rewrite Zminus_mod_idemp_l. f_equal. lia.
Qed.

Lemma ToInt32_congr (x y : Z) :
  (x mod 2 ^ 32 = y mod 2 ^ 32)%Z -> ToInt32 x = ToInt32 y.
Proof.
  intros H. unfold ToInt32.
  rewrite (Z.add_mod x), (Z.add_mod y), H by lia. reflexivity.
Qed.

Lemma ToInt32_wraps (z : Z) : exists q : Z, ToInt32 z = (z - 2 ^ 32 * q)%Z.
Proof.
  exists ((z + 2 ^ 31) / 2 ^ 32)%Z. unfold ToInt32.
  rewrite Z.mod_eq by lia. lia.
Qed.

(** One step of the reducer is the step of the classical 31-multiplier
    string hash, wrapped to 32 bits. *)
Lemma hashStep_31 (a : Z) (b : ascii) :
  hashStep a b = ToInt32 (31 * a + charCodeAt0 b).
Proof.
  unfold hashStep. rewrite Z.land_diag. apply ToInt32_congr.
  rewrite Z.shiftl_mul_pow2 by lia.
  destruct (ToInt32_wraps a) as [q1 ->].
  destruct (ToInt32_wraps ((a - 2 ^ 32 * q1) * 2 ^ 5)) as [q2 ->].
  replace ((a - 2 ^ 32 * q1) * 2 ^ 5 - 2 ^ 32 * q2 - a + charCodeAt0 b)%Z
    with (31 * a + charCodeAt0 b + (- (32 * q1 + q2)) * 2 ^ 32)%Z by lia.
  apply Z_mod_plus_full.
Qed.

Lemma hashOf_snoc (text : string) (c : ascii) :
  hashOf (text +:+ String c "") = ToInt32 (31 * hashOf text + charCodeAt0 c).
Proof.
  unfold hashOf. rewrite list_ascii_of_string_app, fold_left_app. simpl.
  apply hashStep_31.
Qed.

Lemma fold_hashStep_range (l : list ascii) (a : Z) :
  (- 2 ^ 31 <= a < 2 ^ 31)%Z -> (- 2 ^ 31 <= fold_left hashStep l a < 2 ^ 31)%Z.
Proof.
  revert a. induction l as [|c l IH]; intros a Ha; simpl; [exact Ha |].
  apply IH. rewrite hashStep_31. apply ToInt32_range.
Qed.

(** X1: the hash that seeds the embedding is the 31-multiplier string hash
    wrapped to 32 bits: it is 0 for the empty text, appending a character
    [c] turns [h] into [ToInt32 (31 * h + code c)], and the hash of every
    text lies in [-2^31, 2^31). *)
Theorem hashOf_31_multiplier_int32 (text : string) (c : ascii) :
  hashOf "" = 0%Z
  /\ hashOf (text +:+ String c "") = ToInt32 (31 * hashOf text + charCodeAt0 c)
  /\ (- 2 ^ 31 <= hashOf text < 2 ^ 31)%Z.
Proof.
  split; [reflexivity |]. split; [apply hashOf_snoc |].
  unfold hashOf. apply fold_hashStep_range. lia.
Qed.

Lemma hashStep_Aa_BB (h : Z) :
  hashStep (hashStep h "A") "a" = hashStep (hashStep h "B") "B".
Proof.
  rewrite !hashStep_31. apply ToInt32_congr.
  change (charCodeAt0 "A") with 65%Z. change (charCodeAt0 "a") with 97%Z.
  change (charCodeAt0 "B") with 66%Z.
  destruct (ToInt32_wraps (31 * h + 65)) as [q1 ->].
  destruct (ToInt32_wraps (31 * h + 66)) as [q2 ->].
  replace (31 * (31 * h + 65 - 2 ^ 32 * q1) + 97)%Z
    with (31 * (31 * h + 66 - 2 ^ 32 * q2) + 66 + (31 * (q2 - q1)) * 2 ^ 32)%Z by lia.
  apply Z_mod_plus_full.
Qed.

(** X2: the embedding depends on the text only through its 32-bit hash,
    and the hash collides: whatever comes before and after, a text with
    "Aa" at some place and the text with "BB" at that place are different
    texts with the same vector, entry for entry. *)
Theorem generateMockEmbedding_hash_collision (prefix suffix : string) :
  prefix +:+ text_Aa +:+ suffix <> prefix +:+ text_BB +:+ suffix
  /\ generateMockEmbedding (prefix +:+ text_Aa +:+ suffix)
     = generateMockEmbedding (prefix +:+ text_BB +:+ suffix).
Proof.
  split.
  - intros H. apply (f_equal list_ascii_of_string) in H.
    rewrite !list_ascii_of_string_app in H. apply app_inv_head in H.
    discriminate H.
  - assert (H : hashOf (prefix +:+ text_Aa +:+ suffix)
                = hashOf (prefix +:+ text_BB +:+ suffix)).
    { unfold hashOf. rewrite !list_ascii_of_string_app, !fold_left_app.
      f_equal. apply hashStep_Aa_BB. }
    rewrite !generateMockEmbedding_entries. now rewrite H.
Qed.

(** ** Rules for pre- and postconditions *)

Lemma hoare_ret {W A} (P : State W -> Prop) (Q : A -> State W -> Prop) E (a : A) :
  (forall st, P st -> Q a st) -> hoare P (ret a) Q E.
Proof. intros H st HP. now apply H. Qed.

Lemma hoare_throw {W A} (P : State W -> Prop) (Q : A -> State W -> Prop)
    (E : State W -> Prop) e :
  (forall st, P st -> E st) -> hoare P (throw e) Q E.
Proof. intros H st HP. now apply H. Qed.

Lemma hoare_bind {W A B} (P : State W -> Prop) (c : M W A) (k : A -> M W B)
    (Q : A -> State W -> Prop) (R : B -> State W -> Prop) (E : State W -> Prop) :
  hoare P c Q E -> (forall a, hoare (Q a) (k a) R E) -> hoare P (bind c k) R E.
Proof.
  intros Hc Hk st HP. specialize (Hc st HP). unfold bind.
  destruct (c st) as [[a | e] st']; [| exact Hc].
  now apply Hk.
Qed.

Lemma hoare_weaken {W A} (P P' : State W -> Prop) (c : M W A)
    (Q Q' : A -> State W -> Prop) (E : State W -> Prop) :
  hoare P' c Q' E -> (forall st, P st -> P' st) -> (forall a st, Q' a st -> Q a st) ->
  hoare P c Q E.
Proof.
  intros Hc HP HQ st Hst. specialize (Hc st (HP st Hst)).
  destruct (c st) as [[a | e] st']; [now apply HQ | exact Hc].
Qed.

Lemma hoare_for_of {W A} (Inv : State W -> Prop) (xs : list A) (body : A -> M W unit)
    (E : State W -> Prop) :
  (forall x, x ∈ xs -> hoare Inv (body x) (fun _ => Inv) E) ->
  hoare Inv (for_of xs body) (fun _ => Inv) E.
Proof.
  induction xs as [|x xs IH]; intros Hbody.
  - now apply hoare_ret.
  - cbn [for_of]. eapply hoare_bind; [apply Hbody; left |].
    intros u. apply IH. intros y Hy. apply Hbody. now right.
Qed.

Lemma hoare_dispatchEvent {W} (P : State W -> Prop) (ev : CustomEvent) (E : State W -> Prop) :
  hoare (fun st => P (snd (dispatchEvent ev st))) (dispatchEvent ev) (fun _ => P) E.
Proof. intros st HP. exact HP. Qed.

Lemma hoare_getQuads {W} (P : State W -> Prop) (s p o g : OTerm) (E : State W -> Prop) :
  hoare P (Store.getQuads s p o g)
        (fun found st => P st /\ found = filter (fun q => matches s p o g q = true) (quads st))
        E.
Proof. intros st HP. cbn. now split. Qed.

(** ** Whatever the two elementary mutations keep, every method keeps *)

Section Invariant.

Context {W : Type} (I : State W -> Prop) (good : Quad -> Prop).

Hypothesis I_addQuad :
  forall q st, good q -> I st -> I (snd (SyncStore.addQuad q st)).
Hypothesis I_removeQuad :
  forall q st, good q -> I st -> I (snd (SyncStore.removeQuad q st)).
Hypothesis I_batch :
  forall ev st, type ev <> ADD_QUAD -> type ev <> REMOVE_QUAD ->
    I st -> I (snd (dispatchEvent ev st)).
Hypothesis I_quads : forall st q, I st -> q ∈ quads st -> good q.

Lemma keeps_addQuad (q : Quad) :
  good q -> hoare I (SyncStore.addQuad q) (fun _ => I) I.
Proof.
  intros Hg st HI. pose proof (I_addQuad q st Hg HI) as H.
  rewrite addQuad_state in *. exact H.
Qed.

Lemma keeps_removeQuad (q : Quad) :
  good q -> hoare I (SyncStore.removeQuad q) (fun _ => I) I.
Proof.
  intros Hg st HI. pose proof (I_removeQuad q st Hg HI) as H.
  rewrite removeQuad_state in *. exact H.
Qed.

Lemma keeps_batch (ev : CustomEvent) :
  type ev <> ADD_QUAD -> type ev <> REMOVE_QUAD ->
  hoare I (dispatchEvent ev) (fun _ => I) I.
Proof. intros H1 H2 st HI. now apply (I_batch ev st). Qed.

Lemma keeps_each (body : Quad -> M W bool) (qs : list Quad) :
  (forall q, good q -> hoare I (body q) (fun _ => I) I) ->
  (forall q, q ∈ qs -> good q) ->
  hoare I (for_of qs (fun quad => body quad ;;; ret tt)) (fun _ => I) I.
Proof.
  intros Hbody Hqs. apply hoare_for_of. intros q Hq.
  eapply hoare_bind; [apply Hbody, Hqs, Hq |].
  intros b. now apply hoare_ret.
Qed.

Lemma keeps_addQuads (qs : list Quad) :
  (forall q, q ∈ qs -> good q) -> hoare I (SyncStore.addQuads qs) (fun _ => I) I.
Proof.
  intros Hqs. unfold SyncStore.addQuads, Store.addQuads.
  eapply hoare_bind; [apply (keeps_each _ _ keeps_addQuad Hqs) |].
  intros u. now apply keeps_batch.
Qed.

Lemma keeps_removeQuads (qs : list Quad) :
  (forall q, q ∈ qs -> good q) -> hoare I (SyncStore.removeQuads qs) (fun _ => I) I.
Proof.
  intros Hqs. unfold SyncStore.removeQuads, Store.removeQuads.
  eapply hoare_bind; [apply (keeps_each _ _ keeps_removeQuad Hqs) |].
  intros u. now apply keeps_batch.
Qed.

Lemma keeps_remove (stream : EventEmitter) :
  (forall q, q ∈ stream -> good q) -> hoare I (SyncStore.remove stream) (fun _ => I) I.
Proof.
  intros Hqs. unfold SyncStore.remove, Store.remove.
  eapply (hoare_bind _ _ _ (fun _ => I)).
  - eapply hoare_bind; [apply (keeps_each _ _ keeps_removeQuad Hqs) |].
    intros u. now apply hoare_ret.
  - intros result. eapply hoare_bind; [now apply keeps_batch |].
    intros u. now apply hoare_ret.
Qed.

Lemma keeps_snapshot_event (ty : SyncStoreEvent) (snapshot : list Quad) :
  ty <> ADD_QUAD -> ty <> REMOVE_QUAD ->
  hoare I (if (0 <? length snapshot)%nat
           then dispatchEvent (mkEvent ty (QuadArray snapshot)) else ret tt)
        (fun _ => I) I.
Proof.
  intros H1 H2. destruct (0 <? length snapshot)%nat.
  - now apply keeps_batch.
  - now apply hoare_ret.
Qed.

Lemma keeps_removeMatches (s p o g : OTerm) :
  hoare I (SyncStore.removeMatches s p o g) (fun _ => I) I.
Proof.
  unfold SyncStore.removeMatches.
  eapply hoare_bind; [apply hoare_getQuads |]. intros found.
  destruct (negb (0 <? length found)%nat).
  - apply hoare_throw. now intros st [HI _].
  - eapply (hoare_bind _ _ _ (fun _ => I)).
    + unfold Store.removeMatches.
      eapply hoare_bind; [apply hoare_getQuads |]. intros stream.
      intros st [[HI _] ->]. apply keeps_remove; [| exact HI].
      intros q Hq. apply list_elem_of_filter in Hq as [_ Hq]. now apply (I_quads st).
    + intros result. eapply hoare_bind; [now apply keeps_snapshot_event |].
      intros u. now apply hoare_ret.
Qed.

Lemma keeps_deleteGraph (g : Term) :
  hoare I (SyncStore.deleteGraph g) (fun _ => I) I.
Proof.
  unfold SyncStore.deleteGraph.
  eapply hoare_bind; [apply hoare_getQuads |]. intros found.
  eapply (hoare_bind _ _ _ (fun _ => I)).
  - unfold Store.deleteGraph.
    eapply hoare_weaken; [apply keeps_removeMatches | now intros st [HI _] | auto].
  - intros result. eapply hoare_bind; [now apply keeps_snapshot_event |].
    intros u. now apply hoare_ret.
Qed.

End Invariant.

(** ** The index under every call that reaches the store *)

(** The index listens to the two elementary events only. *)
Lemma listeners_ignore (ev : CustomEvent) (db : Orama.DB) :
  type ev <> ADD_QUAD -> type ev <> REMOVE_QUAD ->
  run_listeners ev (target OramaStore.new) db = db.
Proof.
  intros H1 H2. unfold run_listeners. cbn.
  rewrite !decide_False by congruence. reflexivity.
Qed.

Lemma snd_OramaStore_addQuad (q : Quad) (self : OramaStore.t) :
  snd (OramaStore.addQuad q self) = snd (SyncStore.addQuad q self).
Proof. unfold OramaStore.addQuad, bind. now rewrite addQuad_state. Qed.

Lemma snd_OramaStore_removeQuad (q : Quad) (self : OramaStore.t) :
  snd (OramaStore.removeQuad q self) = snd (SyncStore.removeQuad q self).
Proof. unfold OramaStore.removeQuad, bind. now rewrite removeQuad_state. Qed.

Lemma session_keeps (I : OramaStore.t -> Prop) (good : Quad -> Prop) :
  (forall q st, good q -> I st -> I (snd (SyncStore.addQuad q st))) ->
  (forall q st, good q -> I st -> I (snd (SyncStore.removeQuad q st))) ->
  (forall ev st, type ev <> ADD_QUAD -> type ev <> REMOVE_QUAD ->
     I st -> I (snd (dispatchEvent ev st))) ->
  (forall st q, I st -> q ∈ quads st -> good q) ->
  forall c, (forall q, q ∈ Session.mentioned c -> good q) ->
  hoare I (Session.run c) (fun _ => I) I.
Proof.
  intros Hadd Hrem Hbatch Hquads c Hc.
  destruct c as [[q | q | qs | qs] | qs | qs | stream | s p o g | g];
    cbn [Session.run Session.mentioned OramaStore.call OramaStore.mentioned] in *.
  - eapply hoare_bind; [apply (keeps_addQuad I good Hadd), Hc; left |].
    intros b. now apply hoare_ret.
  - eapply hoare_bind; [apply (keeps_removeQuad I good Hrem), Hc; left |].
    intros b. now apply hoare_ret.
  - apply (keeps_each I good); [apply (keeps_addQuad I good Hadd) | exact Hc].
  - apply (keeps_each I good); [apply (keeps_removeQuad I good Hrem) | exact Hc].
  - now apply (keeps_addQuads I good).
  - now apply (keeps_removeQuads I good).
  - eapply hoare_bind; [now apply (keeps_remove I good) |].
    intros r. now apply hoare_ret.
  - eapply hoare_bind; [now apply (keeps_removeMatches I good) |].
    intros r. now apply hoare_ret.
  - eapply hoare_bind; [now apply (keeps_deleteGraph I good) |].
    intros r. now apply hoare_ret.
Qed.

Lemma hoare_snd {W A} (I : State W -> Prop) (c : M W A) (st : State W) :
  hoare I c (fun _ => I) I -> I st -> I (snd (c st)).
Proof.
  intros H HI. specialize (H st HI). now destruct (c st) as [[a | e] st'].
Qed.

Lemma session_after_keeps (I : OramaStore.t -> Prop) (good : Quad -> Prop) :
  (forall c, (forall q, q ∈ Session.mentioned c -> good q) ->
     hoare I (Session.run c) (fun _ => I) I) ->
  forall calls self,
    (forall c q, c ∈ calls -> q ∈ Session.mentioned c -> good q) ->
    I self -> I (Session.after calls self).
Proof.
  intros Hrun calls. induction calls as [|c calls IH]; intros self Hgood HI.
  - exact HI.
  - cbn. apply IH.
    + intros c' q Hc' Hq. apply (Hgood c'); [now right | exact Hq].
    + apply hoare_snd; [| exact HI]. apply Hrun.
      intros q Hq. apply (Hgood c); [left | exact Hq].
Qed.

Lemma mirrors_batch (U : list Quad) (ev : CustomEvent) (self : OramaStore.t) :
  type ev <> ADD_QUAD -> type ev <> REMOVE_QUAD ->
  OramaStore.mirrors U self -> OramaStore.mirrors U (snd (dispatchEvent ev self)).
Proof.
  intros H1 H2 (Htarget & Hrest).
  assert (Hw : run_listeners ev (target self) (world self) = world self)
    by (rewrite Htarget; now apply listeners_ignore).
  unfold OramaStore.mirrors, dispatchEvent. cbn [snd quads target world].
  rewrite Hw. split; [exact Htarget | exact Hrest].
Qed.

Lemma mirrors_session (U : list Quad) (calls : list Session.Call) :
  OramaStore.injective_on U ->
  (forall c q, c ∈ calls -> q ∈ Session.mentioned c -> q ∈ U) ->
  OramaStore.mirrors U (Session.after calls OramaStore.new).
Proof.
  intros Hinj HU.
  apply (session_after_keeps (OramaStore.mirrors U) (fun q => q ∈ U)); auto.
  - apply session_keeps.
    + intros q st Hq Hm. rewrite <- snd_OramaStore_addQuad. now apply mirrors_addQuad.
    + intros q st Hq Hm. rewrite <- snd_OramaStore_removeQuad. now apply mirrors_removeQuad.
    + intros ev st H1 H2. now apply mirrors_batch.
    + intros st q (_ & _ & Hsub & _). apply Hsub.
  - apply mirrors_new.
Qed.

(** X3: the index also follows the store when the store is mutated through
    its own bulk and pattern methods (addQuads, removeQuads, remove,
    removeMatches, deleteGraph on getStore()), although OramaStore listens
    to no batch event: as long as no two distinct quads named in the calls
    share a key, after each call of the sequence, whether it returned or
    threw, the index holds as many documents as the store holds quads and
    isInSync() answers true. *)
Theorem in_sync_after_store_calls (calls : list Session.Call) (n : nat) :
  OramaStore.collision_free (concat (map Session.mentioned calls)) = true ->
  OramaStore.getDocumentCount (Session.after (take n calls) OramaStore.new)
  = OramaStore.getSize (Session.after (take n calls) OramaStore.new)
  /\ OramaStore.isInSync (Session.after (take n calls) OramaStore.new) = true.
Proof.
  intros Hfree.
  apply (mirrors_in_sync (concat (map Session.mentioned calls))).
  apply mirrors_session.
  - now apply collision_free_injective_on.
  - intros c q Hc Hq. apply list_elem_of_In, in_concat.
    exists (Session.mentioned c). split; [| now apply list_elem_of_In].
    apply in_map, list_elem_of_In. now apply (subseteq_take n calls).
Qed.

Lemma in_sync_after_store_calls_witness :
  OramaStore.getDocumentCount (Session.after (take 4 sample_session) OramaStore.new)
  = OramaStore.getSize (Session.after (take 4 sample_session) OramaStore.new)
  /\ OramaStore.isInSync (Session.after (take 4 sample_session) OramaStore.new) = true.
Proof.
  apply (in_sync_after_store_calls sample_session 4).
  vm_compute. reflexivity.
Defined.

(** ** What the index can hold, whatever the keys *)

Lemma linked_new : Session.linked OramaStore.new.
Proof.
  unfold Session.linked. cbn. repeat split.
  - constructor.
  - intros k d Hd. unfold Orama.create in Hd. now rewrite lookup_empty in Hd.
Qed.

Lemma linked_addQuad (quad : Quad) (self : OramaStore.t) :
  Session.linked self -> Session.linked (snd (SyncStore.addQuad quad self)).
Proof.
  intros (Htarget & Hnd & Hdocs).
  rewrite <- snd_OramaStore_addQuad, (OramaStore_addQuad_state quad self Htarget).
  unfold Session.linked, Orama.insert. cbn [snd quads target world].
  rewrite doc_id_quadToOramaDoc.
  split; [exact Htarget |].
  assert (Hkeep : forall q, q ∈ quads self ->
            q ∈ (if decide (quad ∈ quads self) then quads self else quads self ++ [quad])).
  { intros q Hq. destruct (decide (quad ∈ quads self)); [exact Hq |].
    apply elem_of_app. now left. }
  assert (Hnew : quad ∈ (if decide (quad ∈ quads self) then quads self
                         else quads self ++ [quad])).
  { destruct (decide (quad ∈ quads self)); [assumption |].
    apply elem_of_app. right. left. }
  split.
  - destruct (decide (quad ∈ quads self)) as [Hin | Hnin]; [exact Hnd |].
    apply NoDup_app. split; [exact Hnd |]. split; [| apply NoDup_singleton].
    intros x Hx Hx'. apply list_elem_of_singleton in Hx'. now subst.
  - intros k d Hd. apply lookup_insert_Some in Hd as [[<- <-] | [Hne Hd]].
    + now exists quad.
    + destruct (Hdocs k d Hd) as (q & Hq & Hkey & Hdoc).
      exists q. split; [now apply Hkeep | now split].
Qed.

Lemma linked_removeQuad (quad : Quad) (self : OramaStore.t) :
  Session.linked self -> Session.linked (snd (SyncStore.removeQuad quad self)).
Proof.
  intros (Htarget & Hnd & Hdocs).
  rewrite <- snd_OramaStore_removeQuad, (OramaStore_removeQuad_state quad self Htarget).
  unfold Session.linked, Orama.remove. cbn [snd quads target world].
  split; [exact Htarget |]. split; [now apply NoDup_filter |].
  intros k d Hd. apply lookup_delete_Some in Hd as [Hne Hd].
  destruct (Hdocs k d Hd) as (q & Hq & Hkey & Hdoc).
  exists q. split; [| now split].
  apply list_elem_of_filter. split; [| exact Hq]. intros ->. contradiction.
Qed.

Lemma linked_batch (ev : CustomEvent) (self : OramaStore.t) :
  type ev <> ADD_QUAD -> type ev <> REMOVE_QUAD ->
  Session.linked self -> Session.linked (snd (dispatchEvent ev self)).
Proof.
  intros H1 H2 (Htarget & Hrest).
  assert (Hw : run_listeners ev (target self) (world self) = world self)
    by (rewrite Htarget; now apply listeners_ignore).
  unfold Session.linked, dispatchEvent. cbn [snd quads target world].
  rewrite Hw. split; [exact Htarget | exact Hrest].
Qed.

Lemma linked_session (calls : list Session.Call) :
  Session.linked (Session.after calls OramaStore.new).
Proof.
  apply (session_after_keeps Session.linked (fun _ => True)); auto.
  - apply session_keeps; auto.
    + intros q st _. apply linked_addQuad.
    + intros q st _. apply linked_removeQuad.
    + intros ev st. apply linked_batch.
  - apply linked_new.
Qed.

Lemma size_list_to_set_le (l : list string) :
  size (list_to_set l : gset string) <= length l.
Proof.
  induction l as [|a l IH]; [now rewrite list_to_set_nil, size_empty |].
  rewrite list_to_set_cons, size_union_alt, size_singleton. cbn [length].
  assert (Hdiff : (list_to_set l ∖ {[a]} : gset string) ⊆ list_to_set l)
    by (intros x Hx; now apply elem_of_difference in Hx as [Hx _]).
  pose proof (subseteq_size _ _ Hdiff). lia.
Qed.

Lemma size_list_to_set_full (l : list string) :
  size (list_to_set l : gset string) = length l -> NoDup l.
Proof.
  induction l as [|a l IH]; intros Hsize; [constructor |].
  pose proof (size_list_to_set_le l) as Hle.
  rewrite list_to_set_cons, size_union_alt, size_singleton in Hsize.
  cbn [length] in Hsize.
  assert (Hdiff : (list_to_set l ∖ {[a]} : gset string) ⊆ list_to_set l)
    by (intros x Hx; now apply elem_of_difference in Hx as [Hx _]).
  pose proof (subseteq_size _ _ Hdiff) as Hsub.
  assert (Heq : size (list_to_set l ∖ {[a]} : gset string) = size (list_to_set l : gset string))
    by lia.
  apply NoDup_cons. split; [| apply IH; lia].
  intros Hin.
  assert (Hlt : size (list_to_set l ∖ {[a]} : gset string) < size (list_to_set l : gset string)).
  { apply subset_size. apply (subset_difference_elem_of a). now apply elem_of_list_to_set. }
  lia.
Qed.

Lemma NoDup_fmap_inj_on {A B} (f : A -> B) (l : list A) (x y : A) :
  NoDup (f <$> l) -> x ∈ l -> y ∈ l -> f x = f y -> x = y.
Proof.
  induction l as [|a l IH]; intros Hnd Hx Hy Hf; [now apply not_elem_of_nil in Hx |].
  rewrite fmap_cons in Hnd. apply NoDup_cons in Hnd as [Ha Hnd].
  apply elem_of_cons in Hx as [-> | Hx]; apply elem_of_cons in Hy as [-> | Hy].
  - reflexivity.
  - exfalso. apply Ha. rewrite Hf. now apply list_elem_of_fmap_2.
  - exfalso. apply Ha. rewrite <- Hf. now apply list_elem_of_fmap_2.
  - now apply IH.
Qed.

Lemma linked_dom (self : OramaStore.t) :
  Session.linked self ->
  dom (world self) ⊆ (list_to_set (generateQuadId <$> quads self) : gset string).
Proof.
  intros (_ & _ & Hdocs) k Hk.
  apply elem_of_dom in Hk as [d Hd].
  destruct (Hdocs k d Hd) as (q & Hq & Hkey & _).
  apply elem_of_list_to_set. rewrite <- Hkey. now apply list_elem_of_fmap_2.
Qed.

(** X4: after any sequence of calls on a fresh OramaStore, through its own
    methods or through the store's, the index never holds more documents
    than the store holds quads, and every document is the projection of a
    quad that is in the store, filed under that quad's key. *)
Theorem index_never_exceeds_store (calls : list Session.Call) :
  let self := Session.after calls OramaStore.new in
  OramaStore.getDocumentCount self <= OramaStore.getSize self
  /\ forall id doc, OramaStore.getDocumentById self id = Some doc ->
       exists quad, quad ∈ quads self /\ generateQuadId quad = id
                    /\ doc = quadToOramaDoc quad id.
Proof.
  cbv zeta. pose proof (linked_session calls) as Hl. split.
  - unfold OramaStore.getDocumentCount, OramaStore.getSize, Orama.count, Store.size.
    rewrite <- size_dom.
    pose proof (subseteq_size _ _ (linked_dom _ Hl)) as H1.
    pose proof (size_list_to_set_le (generateQuadId <$> quads (Session.after calls OramaStore.new))) as H2.
    rewrite length_fmap in H2. lia.
  - destruct Hl as (_ & _ & Hdocs). exact Hdocs.
Qed.

(** X5: on an object reached by any sequence of calls, the cardinality
    check of isInSync() is enough: when it answers true, no two quads of
    the store share a key and every quad of the store has its own
    projection in the index under its key. *)
Theorem isInSync_true_means_mirrored (calls : list Session.Call) :
  let self := Session.after calls OramaStore.new in
  OramaStore.isInSync self = true ->
  NoDup (generateQuadId <$> quads self)
  /\ forall quad, quad ∈ quads self ->
       OramaStore.getDocumentById self (generateQuadId quad)
       = Some (quadToOramaDoc quad (generateQuadId quad)).
Proof.
  cbv zeta. set (self := Session.after calls OramaStore.new).
  pose proof (linked_session calls) as Hl. fold self in Hl.
  intros Hsync. apply bool_decide_eq_true in Hsync.
  unfold OramaStore.getDocumentCount, OramaStore.getSize, Orama.count, Store.size in Hsync.
  pose proof (linked_dom self Hl) as Hdom.
  pose proof (subseteq_size _ _ Hdom) as H1.
  pose proof (size_list_to_set_le (generateQuadId <$> quads self)) as H2.
  rewrite length_fmap in H2. rewrite size_dom in H1.
  assert (Hnd : NoDup (generateQuadId <$> quads self)).
  { apply size_list_to_set_full. rewrite length_fmap. lia. }
  split; [exact Hnd |].
  intros quad Hquad.
  assert (Heq : dom (world self) = list_to_set (generateQuadId <$> quads self)).
  { apply set_subseteq_size_eq; [exact Hdom |]. rewrite size_dom. lia. }
  assert (Hin : generateQuadId quad ∈ dom (world self)).
  { rewrite Heq. apply elem_of_list_to_set. now apply list_elem_of_fmap_2. }
  apply elem_of_dom in Hin as [d Hd].
  destruct Hl as (_ & _ & Hdocs).
  destruct (Hdocs _ d Hd) as (q & Hq & Hkey & Hdoc).
  assert (q = quad) by (now apply (NoDup_fmap_inj_on generateQuadId (quads self))).
  subst q. unfold OramaStore.getDocumentById, Orama.getByID. now rewrite Hd, Hdoc.
Qed.

Lemma isInSync_true_means_mirrored_witness :
  OramaStore.getDocumentById (Session.after sample_session OramaStore.new)
    (generateQuadId person2_name_Bob)
  = Some (quadToOramaDoc person2_name_Bob (generateQuadId person2_name_Bob)).
Proof.
  destruct (isInSync_true_means_mirrored sample_session) as [_ Hdocs].
  - vm_compute. reflexivity.
  - apply Hdocs. vm_compute. left.
Defined.

(** ** The events of the bulk methods of [SyncStore] *)

Lemma fold_add_elem_of (qs : list Quad) (l : list Quad) (x : Quad) :
  x ∈ fold_left (fun l q => if decide (q ∈ l) then l else l ++ [q]) qs l
  <-> x ∈ l \/ x ∈ qs.
Proof.
  revert l. induction qs as [|q qs IH]; intros l; simpl.
  - split; [now left | intros [H | H]; [exact H | now apply not_elem_of_nil in H]].
  - rewrite IH, elem_of_cons. destruct (decide (q ∈ l)) as [Hin | Hnin].
    + split; [intros [H | H]; auto | intros [H | [-> | H]]; auto].
    + rewrite elem_of_app, list_elem_of_singleton. tauto.
Qed.

Lemma fold_add_NoDup (qs : list Quad) (l : list Quad) :
  NoDup l -> NoDup (fold_left (fun l q => if decide (q ∈ l) then l else l ++ [q]) qs l).
Proof.
  revert l. induction qs as [|q qs IH]; intros l Hnd; simpl; [exact Hnd |].
  apply IH. destruct (decide (q ∈ l)) as [Hin | Hnin]; [exact Hnd |].
  apply NoDup_app. split; [exact Hnd |]. split; [| apply NoDup_singleton].
  intros x Hx Hx'. apply list_elem_of_singleton in Hx'. now subst.
Qed.

Lemma addQuads_state {W} (qs : list Quad) (st : State W) :
  SyncStore.addQuads qs st
  = (Returned tt,
     mkState (fold_left (fun l q => if decide (q ∈ l) then l else l ++ [q]) qs (quads st))
       (target st)
       (dispatched st ++ map addQuadEvent qs ++ [mkEvent ADD_QUADS (ArgsQuads qs)])
       (run_listeners (mkEvent ADD_QUADS (ArgsQuads qs)) (target st)
          (fold_left (fun w q => run_listeners (addQuadEvent q) (target st) w)
                     qs (world st)))).
Proof.
  unfold SyncStore.addQuads, Store.addQuads.
  erewrite bind_returned by apply for_of_addQuad.
  unfold dispatchEvent. cbn [quads target dispatched world].
  now rewrite <- app_assoc.
Qed.

Lemma removeQuads_state {W} (qs : list Quad) (st : State W) :
  SyncStore.removeQuads qs st
  = (Returned tt,
     mkState (filter (fun q => q ∉ qs) (quads st)) (target st)
       (dispatched st ++ map removeQuadEvent qs ++ [mkEvent REMOVE_QUADS (ArgsQuads qs)])
       (run_listeners (mkEvent REMOVE_QUADS (ArgsQuads qs)) (target st)
          (fold_left (fun w q => run_listeners (removeQuadEvent q) (target st) w)
                     qs (world st)))).
Proof.
  unfold SyncStore.removeQuads, Store.removeQuads.
  erewrite bind_returned by apply for_of_removeQuad.
  unfold dispatchEvent. cbn [quads target dispatched world].
  now rewrite <- app_assoc.
Qed.

(** X6: addQuads on the store returns normally and dispatches one ADD_QUAD
    event per quad of the batch, in order and whether or not the quad was
    new, followed by a single ADD_QUADS event carrying the batch; afterwards
    the store holds exactly its former quads and the quads of the batch,
    still without duplicates. *)
Theorem addQuads_events_and_store {W} (qs : list Quad) (st : State W) :
  let r := SyncStore.addQuads qs st in
  fst r = Returned tt
  /\ dispatched (snd r)
     = dispatched st ++ map addQuadEvent qs ++ [mkEvent ADD_QUADS (ArgsQuads qs)]
  /\ (forall q, q ∈ quads (snd r) <-> q ∈ quads st \/ q ∈ qs)
  /\ (NoDup (quads st) -> NoDup (quads (snd r)))
  /\ SyncStoreRev.addQuads qs st = r.
Proof.
  cbv zeta.
  assert (Hrev : SyncStoreRev.addQuads qs st = SyncStore.addQuads qs st) by reflexivity.
  rewrite Hrev, addQuads_state. cbn [fst snd quads dispatched].
  repeat split.
  - now apply fold_add_elem_of.
  - now apply fold_add_elem_of.
  - apply fold_add_NoDup.
Qed.

(** X7: removeQuads on the store returns normally and dispatches one
    REMOVE_QUAD event per quad of the batch, in order and whether or not
    the quad was there, followed by a single REMOVE_QUADS event carrying the
    batch; afterwards the store holds exactly its former quads that are not
    in the batch. *)
Theorem removeQuads_events_and_store {W} (qs : list Quad) (st : State W) :
  let r := SyncStore.removeQuads qs st in
  fst r = Returned tt
  /\ dispatched (snd r)
     = dispatched st ++ map removeQuadEvent qs ++ [mkEvent REMOVE_QUADS (ArgsQuads qs)]
  /\ quads (snd r) = filter (fun q => q ∉ qs) (quads st)
  /\ SyncStoreRev.removeQuads qs st = r.
Proof.
  cbv zeta.
  assert (Hrev : SyncStoreRev.removeQuads qs st = SyncStore.removeQuads qs st)
    by reflexivity.
  rewrite Hrev, removeQuads_state. repeat split.
Qed.

(** X8: the overridden remove(stream) returns the stream and dispatches
    exactly one batch event, REMOVE_QUADS with the stream as detail; the
    quads of the stream leave the store, each under its own REMOVE_QUAD
    event, in stream order, dispatched also for quads that were not there.
    The store is the one reached when the stream has been read to its end;
    the two kinds of event are given separately, nothing is said on how
    they interleave. *)
Theorem remove_events_and_store {W} (stream : EventEmitter) (st : State W) :
  let r := SyncStore.remove stream st in
  fst r = Returned stream
  /\ quads (snd r) = filter (fun q => q ∉ stream) (quads st)
  /\ exists evs, dispatched (snd r) = dispatched st ++ evs
       /\ Direct.elementaryEvents evs = map removeQuadEvent stream
       /\ Direct.batchEvents evs = [mkEvent REMOVE_QUADS (ArgsStream stream)].
Proof.
  cbv zeta. rewrite remove_stream. cbn [fst snd quads dispatched].
  split; [reflexivity |]. split; [reflexivity |].
  eexists. split; [reflexivity |]. now apply removal_events.
Qed.

(** ** The events of the pattern and graph methods *)

(** X9: when at least one quad matches, removeMatches of lines 71-91
    returns the matching quads and dispatches two batch events, both
    REMOVE_QUADS: the first, from the overridden remove, carries the stream,
    the second carries the snapshot.  The matching quads leave the store,
    each under its own REMOVE_QUAD event, and exactly the non-matching quads
    stay.  The store is the one reached when the stream has been read to
    its end; the two kinds of event are given separately, nothing is said
    on how they interleave. *)
Theorem removeMatches_emits_stream_and_snapshot {W} (s p o g : OTerm) (st : State W) :
  let snapshot := filter (fun q => matches s p o g q = true) (quads st) in
  let r := SyncStore.removeMatches s p o g st in
  snapshot <> [] ->
  fst r = Returned snapshot
  /\ quads (snd r) = filter (fun q => ~ matches s p o g q = true) (quads st)
  /\ exists evs, dispatched (snd r) = dispatched st ++ evs
       /\ Direct.elementaryEvents evs = map removeQuadEvent snapshot
       /\ Direct.batchEvents evs
          = [mkEvent REMOVE_QUADS (ArgsStream snapshot);
             mkEvent REMOVE_QUADS (QuadArray snapshot)].
Proof.
  cbv zeta. intros Hne.
  rewrite (removeMatches_some_matches s p o g st Hne). cbn [fst snd quads dispatched].
  split; [reflexivity |]. split; [reflexivity |].
  eexists. split; [reflexivity |]. now apply removal_events.
Qed.

Lemma removeMatches_emits_stream_and_snapshot_witness :
  exists evs,
    dispatched (snd (SyncStore.removeMatches None None None
                       (Some (NamedNode "http://example.org/graph1")) two_graph_store))
    = dispatched two_graph_store ++ evs
    /\ Direct.batchEvents evs
       = [mkEvent REMOVE_QUADS (ArgsStream [person2_name_Bob]);
          mkEvent REMOVE_QUADS (QuadArray [person2_name_Bob])].
Proof.
  destruct (removeMatches_emits_stream_and_snapshot None None None
              (Some (NamedNode "http://example.org/graph1")) two_graph_store)
    as (_ & _ & evs & Hev & _ & Hbatch).
  - apply (bool_decide_eq_false_1
             (filter (fun q => matches None None None
                                 (Some (NamedNode "http://example.org/graph1")) q = true)
                     (quads two_graph_store) = [])).
    vm_compute. reflexivity.
  - exists evs. split; [exact Hev | exact Hbatch].
Defined.

(** X10: in the revision of lines 220-237, when at least one quad matches,
    removeMatches returns the matching quads and dispatches exactly one
    batch event: REMOVE_MATCHES with the snapshot, and no REMOVE_QUADS
    event.  The matching quads leave the store, each under its own
    REMOVE_QUAD event, and exactly the non-matching quads stay.  The store
    is the one reached when the stream has been read to its end; the two
    kinds of event are given separately, nothing is said on how they
    interleave. *)
Theorem removeMatches_rev_emits_one_batch_event {W} (s p o g : OTerm) (st : State W) :
  let snapshot := filter (fun q => matches s p o g q = true) (quads st) in
  let r := SyncStoreRev.removeMatches s p o g st in
  snapshot <> [] ->
  fst r = Returned snapshot
  /\ quads (snd r) = filter (fun q => ~ matches s p o g q = true) (quads st)
  /\ exists evs, dispatched (snd r) = dispatched st ++ evs
       /\ Direct.elementaryEvents evs = map removeQuadEvent snapshot
       /\ Direct.batchEvents evs = [mkEvent REMOVE_MATCHES (QuadArray snapshot)].
Proof.
  cbv zeta. intros Hne.
  rewrite (removeMatches_rev_some_matches s p o g st Hne). cbn [fst snd quads dispatched].
  split; [reflexivity |]. split; [reflexivity |].
  eexists. split; [reflexivity |]. now apply removal_events.
Qed.

Lemma removeMatches_rev_emits_one_batch_event_witness :
  exists evs,
    dispatched (snd (SyncStoreRev.removeMatches None None None
                       (Some (NamedNode "http://example.org/graph1")) two_graph_store))
    = dispatched two_graph_store ++ evs
    /\ Direct.batchEvents evs = [mkEvent REMOVE_MATCHES (QuadArray [person2_name_Bob])].
Proof.
  destruct (removeMatches_rev_emits_one_batch_event None None None
              (Some (NamedNode "http://example.org/graph1")) two_graph_store)
    as (_ & _ & evs & Hev & _ & Hbatch).
  - apply (bool_decide_eq_false_1
             (filter (fun q => matches None None None
                                 (Some (NamedNode "http://example.org/graph1")) q = true)
                     (quads two_graph_store) = [])).
    vm_compute. reflexivity.
  - exists evs. split; [exact Hev | exact Hbatch].
Defined.

Lemma no_match_after_removal (s p o g : OTerm) (l : list Quad) :
  filter (fun q => matches s p o g q = true)
         (filter (fun q => ~ matches s p o g q = true) l) = [].
Proof.
  apply filter_none. intros q Hq. apply list_elem_of_filter in Hq. tauto.
Qed.

(** X11: removeMatches is not repeatable in the code of lines 71-91: once
    a call has removed its matching quads, the same call again finds
    nothing and throws Error("Invalid quads"), leaving the object as the
    first call left it; in the revision of lines 220-237 the repeated call
    returns the empty array and changes nothing. *)
Theorem removeMatches_twice {W} (s p o g : OTerm) (st : State W) :
  filter (fun q => matches s p o g q = true) (quads st) <> [] ->
  SyncStore.removeMatches s p o g (snd (SyncStore.removeMatches s p o g st))
  = (Threw (Error "Invalid quads"), snd (SyncStore.removeMatches s p o g st))
  /\ SyncStoreRev.removeMatches s p o g (snd (SyncStoreRev.removeMatches s p o g st))
     = (Returned [], snd (SyncStoreRev.removeMatches s p o g st)).
Proof.
  intros Hne. split.
  - apply removeMatches_zero_matches_pair.
    rewrite (removeMatches_some_matches s p o g st Hne). cbn [snd quads].
    apply no_match_after_removal.
  - apply removeMatches_zero_matches_pair.
    rewrite (removeMatches_rev_some_matches s p o g st Hne). cbn [snd quads].
    apply no_match_after_removal.
Qed.

Lemma removeMatches_twice_witness :
  fst (SyncStore.removeMatches None None None (Some (NamedNode "http://example.org/graph1"))
         (snd (SyncStore.removeMatches None None None
                 (Some (NamedNode "http://example.org/graph1")) two_graph_store)))
  = Threw (Error "Invalid quads").
Proof.
  destruct (removeMatches_twice None None None
              (Some (NamedNode "http://example.org/graph1")) two_graph_store)
    as [H _].
  - apply (bool_decide_eq_false_1
             (filter (fun q => matches None None None
                                 (Some (NamedNode "http://example.org/graph1")) q = true)
                     (quads two_graph_store) = [])).
    vm_compute. reflexivity.
  - now rewrite H.
Defined.

(** X12: deleteGraph on a graph that holds no quad: in the code of lines
    93-115 the call throws Error("Invalid quads"), raised by the overridden
    removeMatches that the base deleteGraph runs, and leaves the object
    untouched; in the revision of lines 239-261 it returns the empty array,
    dispatches nothing and leaves the object untouched. *)
Theorem deleteGraph_without_quads {W} (g : Term) (st : State W) :
  filter (fun q => matches None None None (Some g) q = true) (quads st) = [] ->
  SyncStore.deleteGraph g st = (Threw (Error "Invalid quads"), st)
  /\ SyncStoreRev.deleteGraph g st = (Returned [], st).
Proof. apply deleteGraph_empty_graph. Qed.

Lemma deleteGraph_without_quads_witness :
  SyncStore.deleteGraph (NamedNode "http://example.org/elsewhere") two_graph_store
  = (Threw (Error "Invalid quads"), two_graph_store).
Proof.
  apply (deleteGraph_without_quads (NamedNode "http://example.org/elsewhere") two_graph_store).
  vm_compute. reflexivity.
Defined.

(** X13: deleteGraph on a graph that holds quads removes exactly the quads
    of that graph, each under its own REMOVE_QUAD event, and returns them.
    As batch events, the code of lines 93-115 dispatches three REMOVE_QUADS
    events (the stream from remove, the snapshot from removeMatches, the
    snapshot from deleteGraph); the revision of lines 239-261 dispatches one
    REMOVE_MATCHES and then one DELETE_GRAPH event, both with the snapshot.
    The store is the one reached when the stream has been read to its end;
    the two kinds of event are given separately, nothing is said on how
    they interleave. *)
Theorem deleteGraph_events_and_store {W} (g : Term) (st : State W) :
  let snapshot := filter (fun q => matches None None None (Some g) q = true) (quads st) in
  let r := SyncStore.deleteGraph g st in
  let r' := SyncStoreRev.deleteGraph g st in
  snapshot <> [] ->
  fst r = Returned snapshot /\ fst r' = Returned snapshot
  /\ quads (snd r) = filter (fun q => q.(graph) <> g) (quads st)
  /\ quads (snd r') = filter (fun q => q.(graph) <> g) (quads st)
  /\ (exists evs, dispatched (snd r) = dispatched st ++ evs
        /\ Direct.elementaryEvents evs = map removeQuadEvent snapshot
        /\ Direct.batchEvents evs
           = [mkEvent REMOVE_QUADS (ArgsStream snapshot);
              mkEvent REMOVE_QUADS (QuadArray snapshot);
              mkEvent REMOVE_QUADS (QuadArray snapshot)])
  /\ (exists evs, dispatched (snd r') = dispatched st ++ evs
        /\ Direct.elementaryEvents evs = map removeQuadEvent snapshot
        /\ Direct.batchEvents evs
           = [mkEvent REMOVE_MATCHES (QuadArray snapshot);
              mkEvent DELETE_GRAPH (QuadArray snapshot)]).
Proof.
  cbv zeta. intros Hne.
  assert (Hothers : filter (fun q => ~ matches None None None (Some g) q = true) (quads st)
                    = filter (fun q => q.(graph) <> g) (quads st)).
  { apply list_filter_iff. intros q. now rewrite matches_graph. }
  assert (Hrev : SyncStoreRev.deleteGraph g st
                 = (Returned (filter (fun q => matches None None None (Some g) q = true) (quads st)),
                    snd (dispatchEvent
                           (mkEvent DELETE_GRAPH
                              (QuadArray (filter (fun q => matches None None None (Some g) q = true)
                                                 (quads st))))
                           (snd (SyncStoreRev.removeMatches None None None (Some g) st))))).
  { unfold SyncStoreRev.deleteGraph.
    rewrite (bind_returned _ _ _ _ _ (getQuads_snapshot None None None (Some g) st)).
    unfold Store.deleteGraph.
    erewrite bind_returned by apply (removeMatches_rev_some_matches _ _ _ _ _ Hne).
    rewrite (removeMatches_rev_some_matches _ _ _ _ _ Hne), (nonempty_length _ Hne).
    reflexivity. }
  rewrite Hrev, deleteGraph_through_removeMatches, (nonempty_length _ Hne).
  rewrite (removeMatches_some_matches _ _ _ _ _ Hne),
    (removeMatches_rev_some_matches _ _ _ _ _ Hne).
  cbn [fst snd quads dispatched dispatchEvent]. rewrite Hothers, <- !app_assoc.
  do 4 (split; [reflexivity |]).
  split; (eexists; split; [reflexivity |]; now apply removal_events).
Qed.

Lemma deleteGraph_events_and_store_witness :
  exists evs,
    dispatched (snd (SyncStoreRev.deleteGraph (NamedNode "http://example.org/graph1")
                       two_graph_store))
    = dispatched two_graph_store ++ evs
    /\ Direct.batchEvents evs
       = [mkEvent REMOVE_MATCHES (QuadArray [person2_name_Bob]);
          mkEvent DELETE_GRAPH (QuadArray [person2_name_Bob])].
Proof.
  destruct (deleteGraph_events_and_store (NamedNode "http://example.org/graph1")
              two_graph_store) as (_ & _ & _ & _ & _ & evs & Hev & _ & Hbatch).
  - apply (bool_decide_eq_false_1
             (filter (fun q => matches None None None
                                 (Some (NamedNode "http://example.org/graph1")) q = true)
                     (quads two_graph_store) = [])).
    vm_compute. reflexivity.
  - exists evs. split; [exact Hev | exact Hbatch].
Defined.

(** ** Insert, look up, remove *)

(** X14: on an OramaStore, after addQuad(quad) the index returns under the
    quad's key a document that carries that key and the quad's subject,
    predicate, object and graph values; after removeQuad(quad) the same
    look-up finds nothing and the quad is gone from the store. *)
Theorem addQuad_getDocumentById_removeQuad (quad : Quad) (self : OramaStore.t) :
  target self = target OramaStore.new ->
  let added := snd (OramaStore.addQuad quad self) in
  let removed := snd (OramaStore.removeQuad quad added) in
  (exists doc,
     OramaStore.getDocumentById added (generateQuadId quad) = Some doc
     /\ doc_id doc = generateQuadId quad
     /\ doc_subject doc = value quad.(subject)
     /\ doc_predicate doc = value quad.(predicate)
     /\ doc_object doc = value quad.(object)
     /\ doc_graph doc = value quad.(graph))
  /\ quad ∈ quads added
  /\ OramaStore.getDocumentById removed (generateQuadId quad) = None
  /\ quad ∉ quads removed.
Proof.
  intros Htarget. cbv zeta.
  rewrite (OramaStore_addQuad_state quad self Htarget). cbn [snd].
  rewrite OramaStore_removeQuad_state by exact Htarget. cbn [snd quads world].
  unfold OramaStore.getDocumentById, Orama.getByID, Orama.insert, Orama.remove.
  cbn [world]. rewrite doc_id_quadToOramaDoc.
  split; [| split; [| split]].
  - exists (quadToOramaDoc quad (generateQuadId quad)).
    rewrite lookup_insert_eq, doc_id_quadToOramaDoc.
    unfold quadToOramaDoc, quadToOramaDoc_traced.
    destruct (decide (termType (object quad) = "Literal")); repeat split.
  - destruct (decide (quad ∈ quads self)); [assumption |].
    apply elem_of_app. right. left.
  - apply lookup_delete_eq.
  - intros Hin. apply list_elem_of_filter in Hin as [Hne _]. now apply Hne.
Qed.

Lemma addQuad_getDocumentById_removeQuad_witness :
  OramaStore.getDocumentById
    (snd (OramaStore.removeQuad person1_name_Alice
            (snd (OramaStore.addQuad person1_name_Alice OramaStore.new))))
    (generateQuadId person1_name_Alice) = None.
Proof.
  destruct (addQuad_getDocumentById_removeQuad person1_name_Alice OramaStore.new)
    as (_ & _ & Hnone & _).
  - reflexivity.
  - exact Hnone.
Defined.

(** X15: removeQuad deletes from the index by key without looking at what
    the store did: removing a quad that is not in the store, but whose key
    is the key of another quad that is in it, leaves that other quad in
    the store and deletes its document from the index. *)
Theorem removeQuad_absent_deletes_colliding_document
    (quad other : Quad) (self : OramaStore.t) :
  target self = target OramaStore.new ->
  other ∈ quads self -> quad <> other ->
  generateQuadId quad = generateQuadId other ->
  let removed := snd (OramaStore.removeQuad quad self) in
  other ∈ quads removed
  /\ OramaStore.getDocumentById removed (generateQuadId other) = None.
Proof.
  intros Htarget Hin Hne Hkey. cbv zeta.
  rewrite (OramaStore_removeQuad_state quad self Htarget). cbn [snd quads].
  unfold OramaStore.getDocumentById, Orama.getByID, Orama.remove. cbn [world].
  split.
  - apply list_elem_of_filter. split; [congruence | exact Hin].
  - rewrite Hkey. apply lookup_delete_eq.
Qed.

Lemma removeQuad_absent_deletes_colliding_document_witness :
  OramaStore.getDocumentById
    (snd (OramaStore.removeQuad quad_bar_in_subject
            (snd (OramaStore.addQuad quad_bar_in_object OramaStore.new))))
    (generateQuadId quad_bar_in_object) = None.
Proof.
  destruct (removeQuad_absent_deletes_colliding_document
              quad_bar_in_subject quad_bar_in_object
              (snd (OramaStore.addQuad quad_bar_in_object OramaStore.new)))
    as [_ Hnone].
  - reflexivity.
  - vm_compute. left.
  - apply (bool_decide_eq_false_1 (quad_bar_in_subject = quad_bar_in_object)).
    vm_compute. reflexivity.
  - reflexivity.
  - exact Hnone.
Defined.

(** ** What listeners see *)

Lemma replay_app {W} (ls : list (SyncStoreEvent * (CustomEvent -> W -> W)))
    (evs evs' : list CustomEvent) (w : W) :
  Direct.replay ls (evs ++ evs') w = Direct.replay ls evs' (Direct.replay ls evs w).
Proof. apply fold_left_app. Qed.

Lemma replay_map {W} (ls : list (SyncStoreEvent * (CustomEvent -> W -> W)))
    (event : Quad -> CustomEvent) (qs : list Quad) (w : W) :
  fold_left (fun w q => run_listeners (event q) ls w) qs w
  = Direct.replay ls (map event qs) w.
Proof.
  revert w. induction qs as [|q qs IH]; intros w; [reflexivity |].
  cbn. apply IH.
Qed.

Lemma follows_refl {W} (st0 : State W) : Direct.follows st0 st0.
Proof.
  split; [reflexivity |]. exists []. now rewrite app_nil_r.
Qed.

Lemma follows_dispatchEvent {W} (st0 : State W) (ev : CustomEvent) (st : State W) :
  Direct.follows st0 st -> Direct.follows st0 (snd (dispatchEvent ev st)).
Proof.
  intros (Htarget & evs & Hlog & Hworld).
  split; [exact Htarget |]. exists (evs ++ [ev]).
  cbn [snd dispatchEvent dispatched world].
  rewrite Hlog, Hworld, Htarget, replay_app, app_assoc. now split.
Qed.

Lemma follows_addQuad {W} (st0 : State W) (q : Quad) (st : State W) :
  Direct.follows st0 st -> Direct.follows st0 (snd (SyncStore.addQuad q st)).
Proof.
  intros (Htarget & evs & Hlog & Hworld). rewrite addQuad_state.
  split; [exact Htarget |]. exists (evs ++ [addQuadEvent q]).
  cbn [snd dispatched world].
  rewrite Hlog, Hworld, Htarget, replay_app, app_assoc. now split.
Qed.

Lemma follows_removeQuad {W} (st0 : State W) (q : Quad) (st : State W) :
  Direct.follows st0 st -> Direct.follows st0 (snd (SyncStore.removeQuad q st)).
Proof.
  intros (Htarget & evs & Hlog & Hworld). rewrite removeQuad_state.
  split; [exact Htarget |]. exists (evs ++ [removeQuadEvent q]).
  cbn [snd dispatched world].
  rewrite Hlog, Hworld, Htarget, replay_app, app_assoc. now split.
Qed.

(** The methods of the revision of lines 177-262 keep what the elementary
    steps keep. *)
Section InvariantRev.

Context {W : Type} (I : State W -> Prop).

Hypothesis I_addQuad : forall q st, I st -> I (snd (SyncStore.addQuad q st)).
Hypothesis I_removeQuad : forall q st, I st -> I (snd (SyncStore.removeQuad q st)).
Hypothesis I_batch :
  forall ev st, type ev <> ADD_QUAD -> type ev <> REMOVE_QUAD ->
    I st -> I (snd (dispatchEvent ev st)).

Lemma keeps_base_remove (stream : EventEmitter) :
  hoare I (Store.remove SyncStoreRev.removeQuad stream) (fun _ => I) I.
Proof.
  unfold Store.remove.
  eapply hoare_bind.
  - apply (keeps_each I (fun _ => True) SyncStore.removeQuad stream); [| easy].
    intros q Hq. apply (keeps_removeQuad I (fun _ => True)); [| exact Hq].
    intros q' st _. apply I_removeQuad.
  - intros u. now apply hoare_ret.
Qed.

Lemma keeps_rev_removeMatches (s p o g : OTerm) :
  hoare I (SyncStoreRev.removeMatches s p o g) (fun _ => I) I.
Proof.
  unfold SyncStoreRev.removeMatches.
  eapply hoare_bind; [apply hoare_getQuads |]. intros found.
  eapply (hoare_bind _ _ _ (fun _ => I)).
  - unfold Store.removeMatches.
    eapply hoare_bind; [apply hoare_getQuads |]. intros stream.
    eapply hoare_weaken; [apply keeps_base_remove | | auto].
    now intros st [[HI _] _].
  - intros result. eapply hoare_bind; [now apply keeps_snapshot_event |].
    intros u. now apply hoare_ret.
Qed.

Lemma keeps_rev_deleteGraph (g : Term) :
  hoare I (SyncStoreRev.deleteGraph g) (fun _ => I) I.
Proof.
  unfold SyncStoreRev.deleteGraph.
  eapply hoare_bind; [apply hoare_getQuads |]. intros found.
  eapply (hoare_bind _ _ _ (fun _ => I)).
  - unfold Store.deleteGraph.
    eapply hoare_weaken; [apply keeps_rev_removeMatches | now intros st [HI _] | auto].
  - intros result. eapply hoare_bind; [now apply keeps_snapshot_event |].
    intros u. now apply hoare_ret.
Qed.

Lemma direct_rev_keeps (c : Direct.Call) :
  hoare I (Direct.runRev c) (fun _ => I) I.
Proof.
  assert (Hadd : forall q st, True -> I st -> I (snd (SyncStore.addQuad q st)))
    by (intros q st _; apply I_addQuad).
  assert (Hrem : forall q st, True -> I st -> I (snd (SyncStore.removeQuad q st)))
    by (intros q st _; apply I_removeQuad).
  destruct c as [q | q | qs | qs | stream | s p o g | g]; cbn [Direct.runRev].
  - eapply hoare_bind; [now apply (keeps_addQuad I (fun _ => True) Hadd) |].
    intros b. now apply hoare_ret.
  - eapply hoare_bind; [now apply (keeps_removeQuad I (fun _ => True) Hrem) |].
    intros b. now apply hoare_ret.
  - now apply (keeps_addQuads I (fun _ => True) Hadd I_batch).
  - now apply (keeps_removeQuads I (fun _ => True) Hrem I_batch).
  - eapply hoare_bind; [apply keeps_base_remove |].
    intros r. now apply hoare_ret.
  - eapply hoare_bind; [apply keeps_rev_removeMatches |].
    intros r. now apply hoare_ret.
  - eapply hoare_bind; [apply keeps_rev_deleteGraph |].
    intros r. now apply hoare_ret.
Qed.

Lemma direct_afterRev_keeps (calls : list Direct.Call) (st : State W) :
  I st -> I (Direct.afterRev calls st).
Proof.
  revert st. induction calls as [|c calls IH]; intros st HI; [exact HI |].
  cbn. apply IH. apply hoare_snd; [apply direct_rev_keeps | exact HI].
Qed.

End InvariantRev.

Lemma follows_afterRev {W} (calls : list Direct.Call) (st0 : State W) :
  Direct.follows st0 (Direct.afterRev calls st0).
Proof.
  apply (direct_afterRev_keeps (Direct.follows st0)).
  - intros q st. apply follows_addQuad.
  - intros q st. apply follows_removeQuad.
  - intros ev st _ _. apply follows_dispatchEvent.
  - apply follows_refl.
Qed.

(** ** The counters of [createMonitoredStore] *)

Lemma tally_app (ty : SyncStoreEvent) (evs evs' : list CustomEvent) :
  Direct.tally ty (evs ++ evs') = Direct.tally ty evs + Direct.tally ty evs'.
Proof. unfold Direct.tally. now rewrite filter_app, length_app. Qed.

Lemma tally_cons (ty : SyncStoreEvent) (ev : CustomEvent) (evs : list CustomEvent) :
  Direct.tally ty (ev :: evs)
  = (if decide (type ev = ty) then 1 else 0) + Direct.tally ty evs.
Proof.
  unfold Direct.tally. rewrite filter_cons.
  now destruct (decide (type ev = ty)).
Qed.

Lemma tally_map (ty : SyncStoreEvent) (event : Quad -> CustomEvent) (qs : list Quad) :
  (forall q, type (event q) = ty) ->
  forall ty', Direct.tally ty' (map event qs) = if decide (ty' = ty) then length qs else 0.
Proof.
  intros Hty ty'. unfold Direct.tally. destruct (decide (ty' = ty)) as [-> | Hne].
  - rewrite filter_all, length_map; [reflexivity |].
    intros ev Hev. apply list_elem_of_fmap in Hev as (q & -> & _). apply Hty.
  - rewrite filter_none; [reflexivity |].
    intros ev Hev Heq. apply list_elem_of_fmap in Hev as (q & -> & _).
    rewrite Hty in Heq. congruence.
Qed.

Lemma monitored_listeners (ev : CustomEvent) (c : Monitored.EventCounts) :
  let c' := run_listeners ev (target Monitored.createMonitoredStore) c in
  Monitored.addQuad c'
  = (if decide (type ev = ADD_QUAD) then 1 else 0) + Monitored.addQuad c
  /\ Monitored.removeQuad c'
     = (if decide (type ev = REMOVE_QUAD) then 1 else 0) + Monitored.removeQuad c
  /\ Monitored.addQuads c'
     = (if decide (type ev = ADD_QUADS) then 1 else 0) + Monitored.addQuads c
  /\ Monitored.removeQuads c'
     = (if decide (type ev = REMOVE_QUADS) then 1 else 0) + Monitored.removeQuads c
  /\ Monitored.removeMatches c'
     = (if decide (type ev = REMOVE_MATCHES) then 1 else 0) + Monitored.removeMatches c
  /\ Monitored.deleteGraph c'
     = (if decide (type ev = DELETE_GRAPH) then 1 else 0) + Monitored.deleteGraph c.
Proof.
  destruct ev as [ty d], c as [n1 n2 n3 n4 n5 n6].
  destruct ty; repeat split; reflexivity.
Qed.

Lemma monitored_replay (evs : list CustomEvent) (c : Monitored.EventCounts) :
  let c' := Direct.replay (target Monitored.createMonitoredStore) evs c in
  Monitored.addQuad c' = Monitored.addQuad c + Direct.tally ADD_QUAD evs
  /\ Monitored.removeQuad c' = Monitored.removeQuad c + Direct.tally REMOVE_QUAD evs
  /\ Monitored.addQuads c' = Monitored.addQuads c + Direct.tally ADD_QUADS evs
  /\ Monitored.removeQuads c' = Monitored.removeQuads c + Direct.tally REMOVE_QUADS evs
  /\ Monitored.removeMatches c' = Monitored.removeMatches c + Direct.tally REMOVE_MATCHES evs
  /\ Monitored.deleteGraph c' = Monitored.deleteGraph c + Direct.tally DELETE_GRAPH evs.
Proof.
  cbv zeta. revert c. induction evs as [|ev evs IH]; intros c.
  - unfold Direct.tally. cbn [Direct.replay fold_left filter length].
    rewrite !Nat.add_0_r. repeat split.
  - change (Direct.replay (target Monitored.createMonitoredStore) (ev :: evs) c)
      with (Direct.replay (target Monitored.createMonitoredStore) evs
              (run_listeners ev (target Monitored.createMonitoredStore) c)).
    rewrite !tally_cons.
    destruct (IH (run_listeners ev (target Monitored.createMonitoredStore) c))
      as (H1 & H2 & H3 & H4 & H5 & H6).
    destruct (monitored_listeners ev c) as (G1 & G2 & G3 & G4 & G5 & G6).
    rewrite H1, H2, H3, H4, H5, H6, G1, G2, G3, G4, G5, G6.
    repeat split; lia.
Qed.

(** X16: the six counters of createMonitoredStore() are exact: after any
    sequence of calls of the store's methods (revision of lines 177-262),
    whether they returned or threw, each counter equals the number of
    events of its type that the store has dispatched; no event is missed
    and none is counted twice. *)
Theorem eventCounts_tally_the_log (calls : list Direct.Call) :
  let st := Direct.afterRev calls Monitored.createMonitoredStore in
  Monitored.addQuad (world st) = Direct.tally ADD_QUAD (dispatched st)
  /\ Monitored.removeQuad (world st) = Direct.tally REMOVE_QUAD (dispatched st)
  /\ Monitored.addQuads (world st) = Direct.tally ADD_QUADS (dispatched st)
  /\ Monitored.removeQuads (world st) = Direct.tally REMOVE_QUADS (dispatched st)
  /\ Monitored.removeMatches (world st) = Direct.tally REMOVE_MATCHES (dispatched st)
  /\ Monitored.deleteGraph (world st) = Direct.tally DELETE_GRAPH (dispatched st).
Proof.
  cbv zeta.
  destruct (follows_afterRev calls Monitored.createMonitoredStore)
    as (_ & evs & Hlog & Hworld).
  change (dispatched Monitored.createMonitoredStore ++ evs) with evs in Hlog.
  rewrite Hlog, Hworld. apply (monitored_replay evs).
Qed.

(** X17: on a monitored store in any state, a direct addQuad or removeQuad
    moves its own counter by one and no other, whether or not the store
    changed; addQuads(quads) moves the addQuad counter by the length of the
    batch and the addQuads counter by one; removeQuads(quads) moves the
    removeQuad counter by the length of the batch and the removeQuads
    counter by one; no other counter moves. *)
Theorem eventCounts_of_direct_calls (calls : list Direct.Call) (quad : Quad)
    (qs : list Quad) :
  let st := Direct.afterRev calls Monitored.createMonitoredStore in
  let c := world st in
  world (snd (SyncStoreRev.addQuad quad st))
  = Monitored.mkCounts (S (Monitored.addQuad c)) (Monitored.removeQuad c)
      (Monitored.addQuads c) (Monitored.removeQuads c)
      (Monitored.removeMatches c) (Monitored.deleteGraph c)
  /\ world (snd (SyncStoreRev.removeQuad quad st))
     = Monitored.mkCounts (Monitored.addQuad c) (S (Monitored.removeQuad c))
         (Monitored.addQuads c) (Monitored.removeQuads c)
         (Monitored.removeMatches c) (Monitored.deleteGraph c)
  /\ world (snd (SyncStoreRev.addQuads qs st))
     = Monitored.mkCounts (Monitored.addQuad c + length qs) (Monitored.removeQuad c)
         (S (Monitored.addQuads c)) (Monitored.removeQuads c)
         (Monitored.removeMatches c) (Monitored.deleteGraph c)
  /\ world (snd (SyncStoreRev.removeQuads qs st))
     = Monitored.mkCounts (Monitored.addQuad c) (Monitored.removeQuad c + length qs)
         (Monitored.addQuads c) (S (Monitored.removeQuads c))
         (Monitored.removeMatches c) (Monitored.deleteGraph c).
Proof.
  cbv zeta.
  destruct (follows_afterRev calls Monitored.createMonitoredStore) as (Htarget & _).
  set (st := Direct.afterRev calls Monitored.createMonitoredStore) in *.
  change (SyncStoreRev.addQuad quad st) with (SyncStore.addQuad quad st).
  change (SyncStoreRev.removeQuad quad st) with (SyncStore.removeQuad quad st).
  change (SyncStoreRev.addQuads qs st) with (SyncStore.addQuads qs st).
  change (SyncStoreRev.removeQuads qs st) with (SyncStore.removeQuads qs st).
  rewrite addQuad_state, removeQuad_state, addQuads_state, removeQuads_state.
  cbn [snd world]. rewrite Htarget, !replay_map.
  set (tgt := target Monitored.createMonitoredStore).
  change (run_listeners (addQuadEvent quad) tgt (world st))
    with (Direct.replay tgt [addQuadEvent quad] (world st)).
  change (run_listeners (removeQuadEvent quad) tgt (world st))
    with (Direct.replay tgt [removeQuadEvent quad] (world st)).
  change (run_listeners (mkEvent ADD_QUADS (ArgsQuads qs)) tgt
            (Direct.replay tgt (map addQuadEvent qs) (world st)))
    with (Direct.replay tgt [mkEvent ADD_QUADS (ArgsQuads qs)]
            (Direct.replay tgt (map addQuadEvent qs) (world st))).
  change (run_listeners (mkEvent REMOVE_QUADS (ArgsQuads qs)) tgt
            (Direct.replay tgt (map removeQuadEvent qs) (world st)))
    with (Direct.replay tgt [mkEvent REMOVE_QUADS (ArgsQuads qs)]
            (Direct.replay tgt (map removeQuadEvent qs) (world st))).
  rewrite <- !replay_app.
  assert (Hrecord : forall evs c',
            Direct.replay tgt evs (world st) = c' <->
            Monitored.addQuad c' = Monitored.addQuad (world st) + Direct.tally ADD_QUAD evs
            /\ Monitored.removeQuad c'
               = Monitored.removeQuad (world st) + Direct.tally REMOVE_QUAD evs
            /\ Monitored.addQuads c'
               = Monitored.addQuads (world st) + Direct.tally ADD_QUADS evs
            /\ Monitored.removeQuads c'
               = Monitored.removeQuads (world st) + Direct.tally REMOVE_QUADS evs
            /\ Monitored.removeMatches c'
               = Monitored.removeMatches (world st) + Direct.tally REMOVE_MATCHES evs
            /\ Monitored.deleteGraph c'
               = Monitored.deleteGraph (world st) + Direct.tally DELETE_GRAPH evs).
  { intros evs c'. split.
    - intros <-. apply monitored_replay.
    - intros (H1 & H2 & H3 & H4 & H5 & H6).
      destruct (monitored_replay evs (world st)) as (G1 & G2 & G3 & G4 & G5 & G6).
      fold tgt in G1, G2, G3, G4, G5, G6.
      destruct (Direct.replay tgt evs (world st)), c'. cbn in *. congruence. }
  rewrite !Hrecord. cbn [Monitored.addQuad Monitored.removeQuad Monitored.addQuads
    Monitored.removeQuads Monitored.removeMatches Monitored.deleteGraph].
  rewrite !tally_app, !tally_cons.
  rewrite !(tally_map ADD_QUAD addQuadEvent qs (fun _ => eq_refl)).
  rewrite !(tally_map REMOVE_QUAD removeQuadEvent qs (fun _ => eq_refl)).
  unfold Direct.tally.
  cbn [addQuadEvent removeQuadEvent type filter length].
  repeat match goal with
         | |- context [decide (?a = ?b)] =>
             let d := eval vm_compute in (decide (a = b)) in
             change (decide (a = b)) with d
         end.
  cbv iota. rewrite !filter_nil. cbn [length]. repeat split; lia.
Qed.

(** ** The per-subject counts of the tracking test *)

Lemma events_cons (ty : SyncStoreEvent) (iri : string) (ev : CustomEvent)
    (evs : list CustomEvent) :
  Tracking.events ty iri (ev :: evs)
  = (if Tracking.about ty iri ev then 1 else 0) + Tracking.events ty iri evs.
Proof.
  unfold Tracking.events. rewrite filter_cons.
  destruct (Tracking.about ty iri ev).
  - now rewrite decide_True.
  - now rewrite decide_False.
Qed.

Lemma updateSubjectCounts_lookup (quads : list Quad) (increment : Z)
    (counts : gmap string Z) (iri : string) :
  Tracking.updateSubjectCounts quads increment counts !! iri
  = if decide (length (filter (fun quad => value quad.(subject) = iri) quads) = 0)
    then counts !! iri
    else Some (default 0%Z (counts !! iri)
               + Z.of_nat (length (filter (fun quad => value quad.(subject) = iri) quads))
                 * increment)%Z.
Proof.
  revert counts. induction quads as [|quad quads IH]; intros counts; [reflexivity |].
  change (Tracking.updateSubjectCounts (quad :: quads) increment counts)
    with (Tracking.updateSubjectCounts quads increment
            (<[ value quad.(subject)
                := (default 0%Z (counts !! value quad.(subject)) + increment)%Z ]> counts)).
  rewrite IH, filter_cons.
  set (k := length (filter (fun quad => value quad.(subject) = iri) quads)).
  destruct (decide (value (subject quad) = iri)) as [<- | Hne].
  - rewrite lookup_insert_eq. cbn [length default from_option id].
    rewrite (decide_False (P := S k = 0)) by lia.
    destruct (decide (k = 0)) as [Hk | Hk]; f_equal; rewrite Nat2Z.inj_succ; try rewrite Hk; lia.
  - now rewrite lookup_insert_ne.
Qed.

Lemma detailQuads_cases (d : Detail) :
  (exists quads, Tracking.detailQuads d = Some quads) \/ Tracking.detailQuads d = None.
Proof. destruct d; cbn; eauto. Qed.

Lemma tracking_listeners (ev : CustomEvent) (counts : gmap string Z) (iri : string) :
  run_listeners ev (target Tracking.trackedStore) counts !! iri
  = if Tracking.about ADD_QUAD iri ev
    then Some (default 0%Z (counts !! iri) + 1)%Z
    else if Tracking.about REMOVE_QUAD iri ev
         then Some (default 0%Z (counts !! iri) - 1)%Z
         else if decide (Tracking.sweptBy iri ev = 0)
              then counts !! iri
              else Some (default 0%Z (counts !! iri)
                         - Z.of_nat (Tracking.sweptBy iri ev))%Z.
Proof.
  destruct ev as [ty d]. unfold Tracking.about, Tracking.sweptBy. cbn [type detail].
  change (target Tracking.trackedStore)
    with [(ADD_QUAD, Tracking.onAddQuad); (REMOVE_QUAD, Tracking.onRemoveQuad);
          (REMOVE_MATCHES, Tracking.onRemoveMatches);
          (DELETE_GRAPH, Tracking.onDeleteGraph)].
  unfold run_listeners. cbn [fold_left fst snd type].
  unfold Tracking.onAddQuad, Tracking.onRemoveQuad, Tracking.onRemoveMatches,
    Tracking.onDeleteGraph.
  cbn [detail].
  destruct ty;
    repeat match goal with
           | |- context [bool_decide ?P] =>
               let b := eval vm_compute in (bool_decide P) in
               lazymatch b with
               | true => change (bool_decide P) with true
               | false => change (bool_decide P) with false
               end
           | |- context [@decide (?a = ?b) ?i] =>
               lazymatch type of a with SyncStoreEvent => idtac end;
               first [ rewrite (decide_True (P := a = b)) by reflexivity
                     | rewrite (decide_False (P := a = b)) by discriminate ]
           end;
    cbn [andb].
  - (* ADD_QUAD *)
    destruct (detail0 d) as [quad |]; [| reflexivity].
    rewrite updateSubjectCounts_lookup. cbn [filter length].
    rewrite filter_cons, filter_nil.
    destruct (decide (value (subject quad) = iri)) as [E | Hne].
    + rewrite bool_decide_eq_true_2 by exact E. cbn [length].
      rewrite (decide_False (P := 1 = 0)) by lia. solve [reflexivity | f_equal; lia].
    + now rewrite bool_decide_eq_false_2 by exact Hne.
  - (* REMOVE_QUAD *)
    destruct (detail0 d) as [quad |]; [| reflexivity].
    rewrite updateSubjectCounts_lookup.
    rewrite filter_cons, filter_nil.
    destruct (decide (value (subject quad) = iri)) as [E | Hne].
    + rewrite bool_decide_eq_true_2 by exact E. cbn [length].
      rewrite (decide_False (P := 1 = 0)) by lia. solve [reflexivity | f_equal; lia].
    + now rewrite bool_decide_eq_false_2 by exact Hne.
  - reflexivity.
  - reflexivity.
  - (* REMOVE_MATCHES *)
    destruct (Tracking.detailQuads d) as [quads |]; [| reflexivity].
    rewrite updateSubjectCounts_lookup.
    destruct (decide (_ = 0)); [reflexivity |]. solve [reflexivity | f_equal; lia].
  - (* DELETE_GRAPH *)
    destruct (Tracking.detailQuads d) as [quads |]; [| reflexivity].
    rewrite updateSubjectCounts_lookup.
    destruct (decide (_ = 0)); [reflexivity |]. solve [reflexivity | f_equal; lia].
Qed.

Lemma about_one_type (iri : string) (ev : CustomEvent) :
  Tracking.about ADD_QUAD iri ev = true -> Tracking.about REMOVE_QUAD iri ev = false.
Proof.
  unfold Tracking.about. intros H. apply andb_true_iff in H as [H _].
  apply bool_decide_eq_true_1 in H. rewrite H. reflexivity.
Qed.

Lemma about_not_swept (ty : SyncStoreEvent) (iri : string) (ev : CustomEvent) :
  ty = ADD_QUAD \/ ty = REMOVE_QUAD ->
  Tracking.about ty iri ev = true -> Tracking.sweptBy iri ev = 0.
Proof.
  unfold Tracking.about, Tracking.sweptBy. intros Hty H.
  apply andb_true_iff in H as [H _]. apply bool_decide_eq_true_1 in H.
  rewrite bool_decide_eq_false_2; [reflexivity |].
  rewrite H. destruct Hty as [-> | ->]; intros [? | ?]; discriminate.
Qed.

Lemma tracking_replay (evs : list CustomEvent) (counts : gmap string Z) (iri : string) :
  Direct.replay (target Tracking.trackedStore) evs counts !! iri
  = if decide (Tracking.events ADD_QUAD iri evs + Tracking.events REMOVE_QUAD iri evs
               + Tracking.swept iri evs = 0)
    then counts !! iri
    else Some (default 0%Z (counts !! iri)
               + Z.of_nat (Tracking.events ADD_QUAD iri evs)
               - Z.of_nat (Tracking.events REMOVE_QUAD iri evs)
               - Z.of_nat (Tracking.swept iri evs))%Z.
Proof.
  revert counts. induction evs as [|ev evs IH]; intros counts; [reflexivity |].
  change (Direct.replay (target Tracking.trackedStore) (ev :: evs) counts)
    with (Direct.replay (target Tracking.trackedStore) evs
            (run_listeners ev (target Tracking.trackedStore) counts)).
  change (Tracking.swept iri (ev :: evs))
    with (Tracking.sweptBy iri ev + Tracking.swept iri evs).
  rewrite IH, tracking_listeners, !events_cons.
  set (a := Tracking.events ADD_QUAD iri evs).
  set (r := Tracking.events REMOVE_QUAD iri evs).
  set (s := Tracking.swept iri evs).
  destruct (Tracking.about ADD_QUAD iri ev) eqn:Hadd.
  - rewrite (about_one_type _ _ Hadd),
      (about_not_swept ADD_QUAD iri ev (or_introl eq_refl) Hadd).
    destruct (decide (a + r + s = 0)), (decide (1 + a + (0 + r) + (0 + s) = 0));
      try lia; cbn [default from_option id]; f_equal; lia.
  - destruct (Tracking.about REMOVE_QUAD iri ev) eqn:Hrem.
    + rewrite (about_not_swept REMOVE_QUAD iri ev (or_intror eq_refl) Hrem).
      destruct (decide (a + r + s = 0)), (decide (0 + a + (1 + r) + (0 + s) = 0));
        try lia; cbn [default from_option id]; f_equal; lia.
    + set (n := Tracking.sweptBy iri ev).
      destruct (decide (n = 0)) as [Hn | Hn].
      * rewrite Hn. reflexivity.
      * destruct (decide (a + r + s = 0)), (decide (0 + a + (0 + r) + (n + s) = 0));
          try lia; cbn [default from_option id]; f_equal; lia.
Qed.

(** X18: the per-subject map of the tracking test counts events, not
    quads: after any sequence of calls of the store's methods (revision of
    lines 177-262), a subject IRI has no entry as long as no event has
    touched it, and otherwise its entry is the number of ADD_QUAD events on
    a quad with that subject, minus the number of such REMOVE_QUAD events,
    minus the number of quads with that subject in the snapshots of the
    REMOVE_MATCHES and DELETE_GRAPH events.  A quad that removeMatches
    takes out is therefore subtracted twice, under its REMOVE_QUAD event
    and with the snapshot: once a quad has been added and removed again by
    removeMatches, the store is empty and the count of its subject is -1
    (the store taken when the stream has been read to its end). *)
Theorem subjectQuadCounts_count_events (calls : list Direct.Call) (iri : string)
    (quad : Quad) :
  let st := Direct.afterRev calls Tracking.trackedStore in
  let adds := Tracking.events ADD_QUAD iri (dispatched st) in
  let removes := Tracking.events REMOVE_QUAD iri (dispatched st) in
  let swept := Tracking.swept iri (dispatched st) in
  let removed :=
    Direct.afterRev
      [Direct.AddQuad quad;
       Direct.RemoveMatches (Some quad.(subject)) (Some quad.(predicate))
         (Some quad.(object)) (Some quad.(graph))]
      Tracking.trackedStore in
  world st !! iri
  = (if decide (adds + removes + swept = 0) then None
     else Some (Z.of_nat adds - Z.of_nat removes - Z.of_nat swept)%Z)
  /\ quads removed = []
  /\ world removed !! value quad.(subject) = Some (-1)%Z.
Proof.
  cbv zeta. split.
  - destruct (follows_afterRev calls Tracking.trackedStore) as (_ & evs & Hlog & Hworld).
    change (dispatched Tracking.trackedStore ++ evs) with evs in Hlog.
    rewrite Hlog, Hworld, tracking_replay.
    change (world Tracking.trackedStore !! iri) with (@None Z).
    destruct (decide (_ = 0)); [reflexivity |]. cbn [default from_option id]. f_equal.
  - set (s := Some (subject quad)). set (p := Some (predicate quad)).
    set (o := Some (object quad)). set (g := Some (graph quad)).
    assert (Hmatch : matches s p o g quad = true).
    { unfold matches, matches_term, s, p, o, g.
      now rewrite !bool_decide_eq_true_2. }
    assert (Hst : Direct.afterRev
                    [Direct.AddQuad quad; Direct.RemoveMatches s p o g] Tracking.trackedStore
                  = snd (SyncStoreRev.removeMatches s p o g
                           (snd (SyncStore.addQuad quad Tracking.trackedStore)))).
    { unfold Direct.afterRev. cbn [fold_left Direct.runRev]. unfold bind.
      change (SyncStoreRev.addQuad quad Tracking.trackedStore)
        with (SyncStore.addQuad quad Tracking.trackedStore).
      rewrite addQuad_state. cbn [ret snd].
      now destruct (SyncStoreRev.removeMatches s p o g _) as [[r | e] st']. }
    rewrite Hst, addQuad_state. cbn [snd].
    change (quads Tracking.trackedStore) with (@nil Quad).
    rewrite (decide_False (P := quad ∈ [])) by apply not_elem_of_nil.
    cbn [app].
    set (st1 := mkState [quad] _ _ _).
    assert (Hsnapshot : filter (fun q => matches s p o g q = true) (quads st1) = [quad]).
    { cbn [st1 quads]. rewrite filter_cons, filter_nil. now rewrite decide_True. }
    assert (Hne : filter (fun q => matches s p o g q = true) (quads st1) <> [])
      by now rewrite Hsnapshot.
    rewrite (removeMatches_rev_some_matches s p o g st1 Hne), Hsnapshot.
    cbn [snd quads world target st1 fold_left map].
    split.
    + rewrite filter_cons, filter_nil. rewrite decide_False; [reflexivity |]. tauto.
    + rewrite !tracking_listeners.
      assert (Hadd : Tracking.about ADD_QUAD (value (subject quad)) (addQuadEvent quad)
                     = true).
      { unfold Tracking.about. cbn [addQuadEvent type detail detail0].
        now rewrite !bool_decide_eq_true_2. }
      assert (Hrem : Tracking.about REMOVE_QUAD (value (subject quad))
                       (removeQuadEvent quad) = true).
      { unfold Tracking.about. cbn [removeQuadEvent type detail detail0].
        now rewrite !bool_decide_eq_true_2. }
      assert (Hno : Tracking.about ADD_QUAD (value (subject quad)) (removeQuadEvent quad)
                    = false).
      { unfold Tracking.about. cbn [removeQuadEvent type].
        now rewrite (bool_decide_eq_false_2 (REMOVE_QUAD = ADD_QUAD)). }
      assert (Hswept : Tracking.sweptBy (value (subject quad))
                         (mkEvent REMOVE_MATCHES (QuadArray [quad])) = 1).
      { unfold Tracking.sweptBy. cbn [type detail Tracking.detailQuads].
        rewrite bool_decide_eq_true_2 by now left.
        rewrite filter_cons, filter_nil. now rewrite decide_True. }
      assert (Hno1 : Tracking.about ADD_QUAD (value (subject quad))
                       (mkEvent REMOVE_MATCHES (QuadArray [quad])) = false).
      { unfold Tracking.about. cbn [type].
        now rewrite (bool_decide_eq_false_2 (REMOVE_MATCHES = ADD_QUAD)). }
      assert (Hno2 : Tracking.about REMOVE_QUAD (value (subject quad))
                       (mkEvent REMOVE_MATCHES (QuadArray [quad])) = false).
      { unfold Tracking.about. cbn [type].
        now rewrite (bool_decide_eq_false_2 (REMOVE_MATCHES = REMOVE_QUAD)). }
      rewrite Hadd, Hrem, Hno, Hno1, Hno2, Hswept.
      change (world Tracking.trackedStore !! value (subject quad)) with (@None Z).
      reflexivity.
Qed.

(** X19: the per-subject counter drifts from the store when a call does
    not change the store: adding one quad twice leaves one quad in the
    store and a count of 2 for its subject; removing a quad from the empty
    store leaves a count of -1. *)
Theorem subjectQuadCounts_drift (quad : Quad) :
  let iri := value quad.(subject) in
  let twice := Direct.afterRev [Direct.AddQuad quad; Direct.AddQuad quad]
                 Tracking.trackedStore in
  let absent := Direct.afterRev [Direct.RemoveQuad quad] Tracking.trackedStore in
  quads twice = [quad] /\ world twice !! iri = Some 2%Z
  /\ quads absent = [] /\ world absent !! iri = Some (-1)%Z.
Proof.
  cbv zeta.
  assert (Hadd1 : forall st : State (gmap string Z),
            snd (Direct.runRev (Direct.AddQuad quad) st) = snd (SyncStore.addQuad quad st)).
  { intros st. cbn [Direct.runRev]. unfold bind.
    change (SyncStoreRev.addQuad quad st) with (SyncStore.addQuad quad st).
    now rewrite addQuad_state. }
  assert (Hrem1 : forall st : State (gmap string Z),
            snd (Direct.runRev (Direct.RemoveQuad quad) st)
            = snd (SyncStore.removeQuad quad st)).
  { intros st. cbn [Direct.runRev]. unfold bind.
    change (SyncStoreRev.removeQuad quad st) with (SyncStore.removeQuad quad st).
    now rewrite removeQuad_state. }
  assert (Hadd : Tracking.about ADD_QUAD (value (subject quad)) (addQuadEvent quad) = true).
  { unfold Tracking.about. cbn [addQuadEvent type detail detail0].
    now rewrite !bool_decide_eq_true_2. }
  assert (Hrem : Tracking.about REMOVE_QUAD (value (subject quad)) (removeQuadEvent quad)
                 = true).
  { unfold Tracking.about. cbn [removeQuadEvent type detail detail0].
    now rewrite !bool_decide_eq_true_2. }
  assert (Hno : Tracking.about ADD_QUAD (value (subject quad)) (removeQuadEvent quad)
                = false).
  { unfold Tracking.about. cbn [removeQuadEvent type].
    now rewrite (bool_decide_eq_false_2 (REMOVE_QUAD = ADD_QUAD)). }
  unfold Direct.afterRev. cbn [fold_left]. rewrite !Hadd1, Hrem1.
  rewrite (addQuad_state quad Tracking.trackedStore), removeQuad_state. cbn [snd].
  rewrite addQuad_state. cbn [snd quads target world].
  change (quads Tracking.trackedStore) with (@nil Quad).
  rewrite (decide_False (P := quad ∈ [])) by apply not_elem_of_nil.
  rewrite (decide_True (P := quad ∈ [] ++ [quad])) by (cbn; left).
  rewrite !tracking_listeners, Hadd, Hrem, Hno.
  change (world Tracking.trackedStore !! value (subject quad)) with (@None Z).
  repeat split.
Qed.
